(** * bs_card_game: the room registry and message relay of [server.js]

    A shallow embedding of the socket handlers of [src/server.js]
    (createRoom, joinRoom, playerReady, gameStateUpdate, playerAction,
    disconnect) and of [generateRoomCode], followed by the properties
    of the room lifecycle proved about them.

    Conventions.
    - [gameRooms] is a JavaScript [Map]: keys are unique and iteration
      follows insertion order, so it is an association list in which
      [Map_set] overwrites in place and appends new keys at the end.
    - Every handler runs to completion; it is a function from the server
      state and the calling socket to the new state and the list of
      messages handed to the transport, in program order.  A message
      carries the value its payload has when it is emitted.
    - The transport (socket.io) keeps, for each room code, the group of
      sockets that called [socket.join] on it.  A socket has left all its
      groups by the time its [disconnect] handler runs. *)

From Stdlib Require Import List String Ascii Bool Arith NArith Lia.
Import ListNotations.
Local Open Scope string_scope.
Local Open Scope list_scope.
Local Open Scope nat_scope.

(** ** Room codes *)

Module RoomCode.

(** [String.prototype.toUpperCase] on the characters that occur in the
    base-36 rendering of a number: the letters a-z move to A-Z, every
    other character is kept. *)
Definition upper_ascii (c : ascii) : ascii :=
  let n := nat_of_ascii c in
  if ((97 <=? n) && (n <=? 122))%nat then ascii_of_nat (n - 32) else c.

Fixpoint toUpperCase (s : string) : string :=
  match s with
  | EmptyString => EmptyString
  | String c s' => String (upper_ascii c) (toUpperCase s')
  end.

(** [s.substring(from, to)] for [from <= to]: the characters at indices
    [from .. to-1], as many of them as [s] has. *)
Definition js_substring (from to : nat) (s : string) : string :=
  String.substring from (to - from) s.

(** The digit characters of [Number.prototype.toString(36)]. *)
Definition digit36 (d : N) : ascii :=
  if (d <? 10)%N then ascii_of_N (48 + d) else ascii_of_N (87 + d).

(** [Math.random()] returns a double in [0, 1); the engines draw it as
    [m / 2^53] for an integer [0 <= m < 2^53].  The random source is that
    integer [m]. *)
Definition two53 : N := 9007199254740992.

(** The fractional digits of [m / 2^53] in radix 36: multiply the
    fraction by the radix, write the integer part, keep the remainder,
    until nothing remains.  The expansion of a multiple of [2^-53] ends
    within 27 digits. *)
Fixpoint fraction_digits (fuel : nat) (f : N) : string :=
  match fuel with
  | O => EmptyString
  | S k =>
      if (f =? 0)%N then EmptyString
      else let f36 := (f * 36)%N in
           String (digit36 (f36 / two53)) (fraction_digits k (f36 mod two53))
  end.

(** [x.toString(36)] for [x = m / 2^53]: ["0"] for zero, otherwise
    ["0."] followed by fractional digits, here those of the exact
    expansion.  This is not the engine's digit string everywhere: an
    engine writes the shortest digits that identify the double and
    rounds the last one, so the double next to 16/36, whose expansion
    begins ["0.fzzzzz"], is written ["0.g"], and the real server draws
    short codes more often than this function does.  The two agree
    where the expansion is short, as for 0 and for 0.5 (["0.i"]).
    What is proved below for every value of the random source does not
    rest on the digits written here: it is proved for every string of
    the form [rendering], whatever its digits, and the handlers use the
    code only as a key. *)
Definition toString36 (m : N) : string :=
  if (m =? 0)%N then "0" else String.append "0." (fraction_digits 27 m).

(** Line 30, on the rendering of the random number. *)
Definition roomCodeOf (rendered : string) : string :=
  toUpperCase (js_substring 2 8 rendered).

(** [generateRoomCode], lines 29-31, with the value of [Math.random()]
    as its argument. *)
Definition generateRoomCode (m : N) : string :=
  roomCodeOf (toString36 m).

(** The room-code alphabet: digits and upper-case letters. *)
Definition upper_alnum (c : ascii) : bool :=
  let n := nat_of_ascii c in
  (((48 <=? n) && (n <=? 57)) || ((65 <=? n) && (n <=? 90)))%nat.

(** The digits of radix 36 as [toString] writes them. *)
Definition lower_alnum (c : ascii) : bool :=
  let n := nat_of_ascii c in
  (((48 <=? n) && (n <=? 57)) || ((97 <=? n) && (n <=? 122)))%nat.

Fixpoint string_forallb (f : ascii -> bool) (s : string) : bool :=
  match s with
  | EmptyString => true
  | String c s' => f c && string_forallb f s'
  end.

(** The strings [toString(36)] can return for a double in [0, 1): ["0"],
    or ["0."] and at least one digit. *)
Definition rendering (s : string) : bool :=
  match s with
  | String "0" EmptyString => true
  | String "0" (String "." (String d ds)) =>
      lower_alnum d && string_forallb lower_alnum ds
  | _ => false
  end.

End RoomCode.

Import RoomCode.

(** ** Data model *)

(** [socket.id], the transport's name of a connection. *)
Definition SocketId : Type := string.

(** A value the server forwards without looking inside it (the game
    state, an action and its data). *)
Definition payload : Type := string.

(** [{ id, name, ready }], lines 42 and 68. *)
Record Player : Type := mkPlayer {
  id : SocketId;
  name : string;
  ready : bool
}.

(** [{ code, players, gameState, started }], lines 40-45; [gameState]
    is [null] until the first gameStateUpdate. *)
Record Room : Type := mkRoom {
  code : string;
  players : list Player;
  gameState : option payload;
  started : bool
}.

Definition set_players (r : Room) (ps : list Player) : Room :=
  mkRoom (code r) ps (gameState r) (started r).

Definition set_gameState (r : Room) (g : payload) : Room :=
  mkRoom (code r) (players r) (Some g) (started r).

Definition set_started (r : Room) : Room :=
  mkRoom (code r) (players r) (gameState r) true.

(** *** The registry: a [Map] from room code to room *)

Definition RoomMap : Type := list (string * Room).

Fixpoint Map_get (k : string) (m : RoomMap) : option Room :=
  match m with
  | [] => None
  | (k', v) :: m' => if String.eqb k' k then Some v else Map_get k m'
  end.

(** [m.set(k, v)]: an existing key keeps its place, a new key goes last. *)
Fixpoint Map_set (k : string) (v : Room) (m : RoomMap) : RoomMap :=
  match m with
  | [] => [(k, v)]
  | (k', v') :: m' =>
      if String.eqb k' k then (k, v) :: m' else (k', v') :: Map_set k v m'
  end.

Fixpoint Map_delete (k : string) (m : RoomMap) : RoomMap :=
  match m with
  | [] => []
  | (k', v') :: m' =>
      if String.eqb k' k then m' else (k', v') :: Map_delete k m'
  end.

Definition Map_keys (m : RoomMap) : list string := map fst m.

(** The keys of a [Map] are pairwise distinct. *)
Definition Map_wf (m : RoomMap) : Prop := NoDup (Map_keys m).

(** *** The transport's broadcast groups *)

Definition Groups : Type := list (string * SocketId).

Definition in_group (rc : string) (c : SocketId) (g : Groups) : bool :=
  existsb (fun e => String.eqb (fst e) rc && String.eqb (snd e) c) g.

(** [socket.join(rc)]. *)
Definition join (rc : string) (c : SocketId) (g : Groups) : Groups :=
  if in_group rc c g then g else g ++ [(rc, c)].

(** What the transport does to a socket that closes, before its
    [disconnect] handler is called. *)
Definition leaveAll (c : SocketId) (g : Groups) : Groups :=
  filter (fun e => negb (String.eqb (snd e) c)) g.

Definition members (rc : string) (g : Groups) : list SocketId :=
  map snd (filter (fun e => String.eqb (fst e) rc) g).

(** *** Messages *)

(** Outbound messages, by event name. *)
Inductive Message : Type :=
| roomCreated (roomCode : string) (playerId : SocketId)
| roomJoined (roomCode : string) (playerId : SocketId)
| error (reason : string)
| playersUpdate (ps : list Player)
| gameStart (ps : list Player)
| gameStateChanged (g : payload)
| playerActionMsg (playerId : SocketId) (action data : payload)
| playerDisconnected (playerId : SocketId).

(** Where a message is sent: [socket.emit], [io.to(rc).emit] (the whole
    group) and [socket.to(rc).emit] (the group without the sender). *)
Inductive Target : Type :=
| to_socket (c : SocketId)
| io_to (rc : string)
| socket_to (sender : SocketId) (rc : string).

Definition Emission : Type := (Target * Message)%type.

Definition recipients (g : Groups) (t : Target) : list SocketId :=
  match t with
  | to_socket c => [c]
  | io_to rc => members rc g
  | socket_to sender rc =>
      filter (fun c => negb (String.eqb c sender)) (members rc g)
  end.

(** Who receives what, for emissions resolved against the groups [g]. *)
Definition deliveries (g : Groups) (out : list Emission)
  : list (SocketId * Message) :=
  flat_map (fun e => map (fun c => (c, snd e)) (recipients g (fst e))) out.

(** Inbound messages; [createRoom] carries the value [Math.random()]
    yields while it is handled. *)
Inductive Event : Type :=
| createRoom (rnd : N) (playerName : string)
| joinRoom (roomCode playerName : string)
| playerReady (roomCode : string)
| gameStateUpdate (roomCode : string) (g : payload)
| playerAction (roomCode : string) (action data : payload)
| disconnect.

Record Server : Type := mkServer {
  gameRooms : RoomMap;
  groups : Groups
}.

Definition init : Server := mkServer [] [].

(** ** The handlers *)

Definition has_id (c : SocketId) (p : Player) : bool := String.eqb (id p) c.

(** [ps.findIndex(p => p.id === c)], [None] for -1. *)
Fixpoint findIndex (c : SocketId) (ps : list Player) : option nat :=
  match ps with
  | [] => None
  | p :: ps' =>
      if has_id c p then Some 0
      else match findIndex c ps' with
           | Some i => Some (S i)
           | None => None
           end
  end.

(** [ps.splice(i, 1)]: the list without its element at index [i]. *)
Fixpoint splice1 (i : nat) (ps : list Player) {struct ps} : list Player :=
  match ps, i with
  | [], _ => []
  | _ :: ps', O => ps'
  | p :: ps', S j => p :: splice1 j ps'
  end.

(** [player.ready = true] on the player [find] returned, which is the
    first one with the caller's id: the object sits in [room.players],
    so the list sees the write. *)
Fixpoint mark_ready (c : SocketId) (ps : list Player) : list Player :=
  match ps with
  | [] => []
  | p :: ps' =>
      if has_id c p then mkPlayer (id p) (name p) true :: ps'
      else p :: mark_ready c ps'
  end.

(** Lines 38-50. *)
Definition on_createRoom (s : Server) (c : SocketId) (rnd : N)
    (playerName : string) : Server * list Emission :=
  let roomCode := generateRoomCode rnd in
  let room := mkRoom roomCode [mkPlayer c playerName false] None false in
  (mkServer (Map_set roomCode room (gameRooms s)) (join roomCode c (groups s)),
   [(to_socket c, roomCreated roomCode c)]).

(** Lines 53-75. *)
Definition on_joinRoom (s : Server) (c : SocketId)
    (roomCode playerName : string) : Server * list Emission :=
  match Map_get roomCode (gameRooms s) with
  | None => (s, [(to_socket c, error "Room not found")])
  | Some room =>
      if started room then (s, [(to_socket c, error "Game already started")])
      else if 5 <=? List.length (players room)
      then (s, [(to_socket c, error "Room is full")])
      else
        let ps := players room ++ [mkPlayer c playerName false] in
        (mkServer (Map_set roomCode (set_players room ps) (gameRooms s))
                  (join roomCode c (groups s)),
         [(to_socket c, roomJoined roomCode c);
          (io_to roomCode, playersUpdate ps)])
  end.

(** Lines 78-93. *)
Definition on_playerReady (s : Server) (c : SocketId) (roomCode : string)
    : Server * list Emission :=
  match Map_get roomCode (gameRooms s) with
  | None => (s, [])
  | Some room =>
      match find (has_id c) (players room) with
      | None => (s, [])
      | Some _ =>
          let ps := mark_ready c (players room) in
          let room1 := set_players room ps in
          if (2 <=? List.length ps) && forallb ready ps
          then (mkServer (Map_set roomCode (set_started room1) (gameRooms s))
                         (groups s),
                [(io_to roomCode, playersUpdate ps);
                 (io_to roomCode, gameStart ps)])
          else (mkServer (Map_set roomCode room1 (gameRooms s)) (groups s),
                [(io_to roomCode, playersUpdate ps)])
      end
  end.

(** Lines 96-103. *)
Definition on_gameStateUpdate (s : Server) (c : SocketId)
    (roomCode : string) (g : payload) : Server * list Emission :=
  match Map_get roomCode (gameRooms s) with
  | None => (s, [])
  | Some room =>
      (mkServer (Map_set roomCode (set_gameState room g) (gameRooms s))
                (groups s),
       [(socket_to c roomCode, gameStateChanged g)])
  end.

(** Lines 106-108. *)
Definition on_playerAction (s : Server) (c : SocketId)
    (roomCode : string) (action data : payload) : Server * list Emission :=
  (s, [(io_to roomCode, playerActionMsg c action data)]).

(** The callback of [gameRooms.forEach], lines 115-128, on the registry
    and the messages sent so far. *)
Definition disconnect_visit (c : SocketId)
    (acc : RoomMap * list Emission) (entry : string * Room)
    : RoomMap * list Emission :=
  let (roomCode, room) := entry in
  match findIndex c (players room) with
  | None => acc
  | Some playerIndex =>
      let ps := splice1 playerIndex (players room) in
      if List.length ps =? 0 then (Map_delete roomCode (fst acc), snd acc)
      else (Map_set roomCode (set_players room ps) (fst acc),
            snd acc ++ [(io_to roomCode, playersUpdate ps);
                        (io_to roomCode, playerDisconnected c)])
  end.

(** Lines 111-129: the rooms are visited in the registry's order. *)
Definition on_disconnect (s : Server) (c : SocketId)
    : Server * list Emission :=
  let r := fold_left (disconnect_visit c) (gameRooms s) (gameRooms s, []) in
  (mkServer (fst r) (groups s), snd r).

(** One inbound event of socket [c], handled to completion. *)
Definition step (s : Server) (c : SocketId) (ev : Event)
    : Server * list Emission :=
  match ev with
  | createRoom rnd playerName => on_createRoom s c rnd playerName
  | joinRoom roomCode playerName => on_joinRoom s c roomCode playerName
  | playerReady roomCode => on_playerReady s c roomCode
  | gameStateUpdate roomCode g => on_gameStateUpdate s c roomCode g
  | playerAction roomCode action data =>
      on_playerAction s c roomCode action data
  | disconnect =>
      on_disconnect (mkServer (gameRooms s) (leaveAll c (groups s))) c
  end.

(** A sequence of events, with everything emitted on the way. *)
Fixpoint run (s : Server) (evs : list (SocketId * Event))
    : Server * list Emission :=
  match evs with
  | [] => (s, [])
  | (c, ev) :: evs' =>
      let (s1, out1) := step s c ev in
      let (s2, out2) := run s1 evs' in
      (s2, out1 ++ out2)
  end.

(** The states the server can be in. *)
Definition reachable (s : Server) : Prop :=
  exists evs, fst (run init evs) = s.

(** ** Auxiliary definitions for the statements *)

(** The registry and the messages [on_disconnect] leaves behind, room by
    room: a closed form of the [forEach] loop (see [on_disconnect_sweep]). *)
Fixpoint sweep (c : SocketId) (m : RoomMap) : RoomMap * list Emission :=
  match m with
  | [] => ([], [])
  | (rc, room) :: m' =>
      let r := sweep c m' in
      match findIndex c (players room) with
      | None => ((rc, room) :: fst r, snd r)
      | Some i =>
          let ps := splice1 i (players room) in
          if List.length ps =? 0 then r
          else ((rc, set_players room ps) :: fst r,
                (io_to rc, playersUpdate ps)
                  :: (io_to rc, playerDisconnected c) :: snd r)
      end
  end.

(** Following one [Player] object through an event.  The object at index
    [i] of the players of the room registered under [rc] is, after socket
    [c]'s event [ev], at the index [track] gives, or gone ([None]):
    a [splice] takes it out or moves it one place down, and a [createRoom]
    that draws the code [rc] puts a fresh room in place of the old one. *)
Definition track (s : Server) (c : SocketId) (ev : Event) (rc : string)
    (i : nat) : option nat :=
  match ev with
  | createRoom rnd _ =>
      if String.eqb (generateRoomCode rnd) rc then None else Some i
  | disconnect =>
      match Map_get rc (gameRooms s) with
      | Some room =>
          match findIndex c (players room) with
          | Some k =>
              if i =? k then None
              else if k <? i then Some (i - 1) else Some i
          | None => Some i
          end
      | None => Some i
      end
  | _ => Some i
  end.

Fixpoint track_run (s : Server) (evs : list (SocketId * Event))
    (rc : string) (i : nat) : option nat :=
  match evs with
  | [] => Some i
  | (c, ev) :: evs' =>
      match track s c ev rc i with
      | Some j => track_run (fst (step s c ev)) evs' rc j
      | None => None
      end
  end.

Definition within_capacity (e : string * Room) : Prop :=
  List.length (players (snd e)) <= 5.

(** The same player, with its flag still set if it was. *)
Definition same_player_ready (p p' : Player) : Prop :=
  id p' = id p /\ name p' = name p /\ (ready p = true -> ready p' = true).

Definition is_error (m : Message) : bool :=
  match m with error _ => true | _ => false end.

(** How many [gameStart] messages a list of emissions sends to the
    group of [rc]. *)
Definition is_gameStart_to (rc : string) (e : Emission) : bool :=
  match e with
  | (io_to rc', gameStart _) => String.eqb rc' rc
  | _ => false
  end.

Definition gameStart_count (rc : string) (out : list Emission) : nat :=
  List.length (filter (is_gameStart_to rc) out).

(** Socket [c] is in no group. *)
Definition ungrouped (c : SocketId) (g : Groups) : Prop :=
  forall rc, ~ In c (members rc g).

(** No createRoom among the events draws the code [rc]. *)
Definition no_redraw (rc : string) (evs : list (SocketId * Event)) : Prop :=
  forall c rnd nm, In (c, createRoom rnd nm) evs -> generateRoomCode rnd <> rc.

(** A property of every registered room, given its key. *)
Definition rooms_all (P : string -> Room -> Prop) (s : Server) : Prop :=
  Forall (fun e => P (fst e) (snd e)) (gameRooms s).

(** Who receives what along a sequence of events, each event's messages
    resolved against the groups as its handler leaves them. *)
Fixpoint run_deliveries (s : Server) (evs : list (SocketId * Event))
    : list (SocketId * Message) :=
  match evs with
  | [] => []
  | (c, ev) :: evs' =>
      let r := step s c ev in
      deliveries (groups (fst r)) (snd r) ++ run_deliveries (fst r) evs'
  end.

(** ** Sample runs *)

Module Sample.

(** Two values of [Math.random()] and the codes they give. *)
Definition rnd1 : N := 1234567890123456.
Definition rnd2 : N := 7777777777777777.
Definition code1 : string := "4XMVUE".
Definition code2 : string := "V33RTY".

Definition alice (r : bool) : Player := mkPlayer "A" "Alice" r.
Definition bob (r : bool) : Player := mkPlayer "B" "Bob" r.

(** Alice opens a room, Bob joins it. *)
Definition tr_lobby : list (SocketId * Event) :=
  [("A", createRoom rnd1 "Alice"); ("B", joinRoom code1 "Bob")].

(** Both say they are ready: the game starts. *)
Definition tr_started : list (SocketId * Event) :=
  tr_lobby ++ [("A", playerReady code1); ("B", playerReady code1)].

(** Five players in one room, none of them ready. *)
Definition tr_full : list (SocketId * Event) :=
  tr_lobby ++ [("C", joinRoom code1 "Carol"); ("D", joinRoom code1 "Dave");
               ("E", joinRoom code1 "Erin")].

(** Bob, already in Alice's room, opens a room of his own. *)
Definition tr_two_rooms : list (SocketId * Event) :=
  tr_lobby ++ [("B", createRoom rnd2 "Bob")].

(** Bob is ready, Alice is not. *)
Definition tr_bob_ready : list (SocketId * Event) :=
  tr_lobby ++ [("B", playerReady code1)].

(** Alice leaves, Carol joins and gets ready. *)
Definition tr_later : list (SocketId * Event) :=
  [("A", disconnect); ("C", joinRoom code1 "Carol");
   ("C", playerReady code1)].

Definition after (evs : list (SocketId * Event)) : Server :=
  fst (run init evs).

End Sample.

(** ** Lemmas on the registry *)

Section RegistryFacts.

Lemma Map_get_set_same (k : string) (v : Room) (m : RoomMap) :
  Map_get k (Map_set k v m) = Some v.
Proof.
  induction m as [|[k' v'] m IH]; simpl.
  - now rewrite String.eqb_refl.
  - destruct (String.eqb k' k) eqn:E; simpl.
    + now rewrite String.eqb_refl.
    + now rewrite E.
Qed.

Lemma Map_get_set_other (k k0 : string) (v : Room) (m : RoomMap) :
  k0 <> k -> Map_get k0 (Map_set k v m) = Map_get k0 m.
Proof.
  intros Hne. induction m as [|[k' v'] m IH]; simpl.
  - destruct (String.eqb_spec k k0); congruence.
  - destruct (String.eqb_spec k' k) as [->|Hk]; simpl.
    + destruct (String.eqb_spec k k0); congruence.
    + destruct (String.eqb_spec k' k0); congruence.
Qed.

Lemma Map_get_set_cases (k k0 : string) (v : Room) (m : RoomMap) :
  Map_get k0 (Map_set k v m) =
  if String.eqb k k0 then Some v else Map_get k0 m.
Proof.
  destruct (String.eqb_spec k k0) as [->|Hne].
  - apply Map_get_set_same.
  - apply Map_get_set_other. congruence.
Qed.

Lemma Map_get_In (k : string) (v : Room) (m : RoomMap) :
  Map_get k m = Some v -> In (k, v) m.
Proof.
  induction m as [|[k' v'] m IH]; simpl; [discriminate|].
  destruct (String.eqb_spec k' k) as [->|Hk]; intros H.
  - left. congruence.
  - right. auto.
Qed.

Lemma Map_wf_In_get (k : string) (v : Room) (m : RoomMap) :
  Map_wf m -> In (k, v) m -> Map_get k m = Some v.
Proof.
  unfold Map_wf. induction m as [|[k' v'] m IH]; simpl; [tauto|].
  intros Hwf. inversion Hwf as [|? ? Hn Hm]; subst.
  intros [[= -> ->]|Hin].
  - now rewrite String.eqb_refl.
  - destruct (String.eqb_spec k' k) as [->|Hk]; [|auto].
    exfalso. apply Hn. change k with (fst (k, v)). now apply in_map.
Qed.

Lemma Map_get_None_keys (k : string) (m : RoomMap) :
  Map_get k m = None <-> ~ In k (Map_keys m).
Proof.
  induction m as [|[k' v'] m IH]; simpl.
  - tauto.
  - destruct (String.eqb_spec k' k) as [->|Hk].
    + split; [discriminate | intros H; exfalso; apply H; now left].
    + rewrite IH. tauto.
Qed.

Lemma Map_keys_set (k : string) (v : Room) (m : RoomMap) :
  Map_keys (Map_set k v m) =
  if in_dec string_dec k (Map_keys m) then Map_keys m else Map_keys m ++ [k].
Proof.
  induction m as [|[k' v'] m IH]; simpl; [reflexivity|].
  destruct (String.eqb_spec k' k) as [->|Hk]; simpl.
  - destruct (string_dec k k); [|congruence].
    reflexivity.
  - rewrite IH. destruct (string_dec k' k); [congruence|].
    destruct (in_dec string_dec k (Map_keys m)); reflexivity.
Qed.

Lemma Map_wf_set (k : string) (v : Room) (m : RoomMap) :
  Map_wf m -> Map_wf (Map_set k v m).
Proof.
  unfold Map_wf. intros H. rewrite Map_keys_set.
  destruct (in_dec string_dec k (Map_keys m)) as [|Hn]; [assumption|].
  apply NoDup_app; [assumption | repeat constructor; simpl; tauto |].
  intros x Hx [<-|[]]. contradiction.
Qed.

Lemma Map_keys_delete_incl (k : string) (m : RoomMap) :
  forall x, In x (Map_keys (Map_delete k m)) -> In x (Map_keys m).
Proof.
  induction m as [|[k' v'] m IH]; simpl; [tauto|].
  destruct (String.eqb k' k); simpl; intros x; [tauto|].
  intros [H|H]; auto.
Qed.

Lemma Map_wf_delete (k : string) (m : RoomMap) :
  Map_wf m -> Map_wf (Map_delete k m).
Proof.
  unfold Map_wf. induction m as [|[k' v'] m IH]; simpl; [auto|].
  intros H. inversion H as [|? ? Hn Hm]; subst.
  destruct (String.eqb k' k); simpl; [assumption|].
  constructor; [|auto].
  intros Hin. apply Hn. eapply Map_keys_delete_incl; eauto.
Qed.

(** Writing or deleting the key that sits between [done] and [rest]. *)
Lemma Map_set_middle (k : string) (v v' : Room) (done rest : RoomMap) :
  ~ In k (Map_keys done) ->
  Map_set k v' (done ++ (k, v) :: rest) = done ++ (k, v') :: rest.
Proof.
  induction done as [|[k0 v0] done IH]; simpl; intros Hn.
  - now rewrite String.eqb_refl.
  - destruct (String.eqb_spec k0 k) as [->|Hk]; [tauto|].
    rewrite IH; tauto.
Qed.

Lemma Map_delete_middle (k : string) (v : Room) (done rest : RoomMap) :
  ~ In k (Map_keys done) ->
  Map_delete k (done ++ (k, v) :: rest) = done ++ rest.
Proof.
  induction done as [|[k0 v0] done IH]; simpl; intros Hn.
  - now rewrite String.eqb_refl.
  - destruct (String.eqb_spec k0 k) as [->|Hk]; [tauto|].
    rewrite IH; tauto.
Qed.

Lemma Forall_Map_set (P : string * Room -> Prop) (k : string) (v : Room)
    (m : RoomMap) :
  Forall P m -> P (k, v) -> Forall P (Map_set k v m).
Proof.
  intros Hm Hv. induction Hm as [|[k' v'] m Hx Hm IH]; simpl.
  - auto.
  - destruct (String.eqb k' k); constructor; auto.
Qed.

Lemma Forall_Map_delete (P : string * Room -> Prop) (k : string)
    (m : RoomMap) :
  Forall P m -> Forall P (Map_delete k m).
Proof.
  intros Hm. induction Hm as [|[k' v'] m Hx Hm IH]; simpl.
  - auto.
  - destruct (String.eqb k' k); auto.
Qed.

End RegistryFacts.

(** ** Lemmas on player lists *)

Section PlayerFacts.

Variable c : SocketId.

Lemma has_id_true (p : Player) : has_id c p = true <-> id p = c.
Proof. unfold has_id. apply String.eqb_eq. Qed.

Lemma has_id_false (p : Player) : has_id c p = false <-> id p <> c.
Proof. unfold has_id. apply String.eqb_neq. Qed.

Lemma findIndex_None (ps : list Player) :
  findIndex c ps = None <-> (forall q, In q ps -> id q <> c).
Proof.
  induction ps as [|p ps IH]; simpl.
  - split; [intros _ q [] | reflexivity].
  - destruct (has_id c p) eqn:E.
    + split; [discriminate|]. intros H. apply has_id_true in E.
      exfalso. apply (H p); auto.
    + apply has_id_false in E. destruct (findIndex c ps) as [i|].
      * split; [discriminate|]. intros H.
        assert (Some i = None) by (apply IH; intros q Hq; apply H; auto).
        discriminate.
      * split; [|reflexivity]. intros _ q [<-|Hq]; [assumption|].
        now apply IH.
Qed.

(** The index [findIndex] returns splits the list at the first entry of
    [c]; [splice] removes that entry and nothing else. *)
Lemma findIndex_Some (ps : list Player) (i : nat) :
  findIndex c ps = Some i ->
  exists l1 p l2, ps = l1 ++ p :: l2 /\ id p = c /\
    (forall q, In q l1 -> id q <> c) /\ List.length l1 = i /\
    splice1 i ps = l1 ++ l2.
Proof.
  revert i. induction ps as [|p ps IH]; simpl; [discriminate|].
  intros i. destruct (has_id c p) eqn:E.
  - intros [= <-]. apply has_id_true in E.
    exists [], p, ps. simpl. repeat split; auto; intros q [].
  - apply has_id_false in E. destruct (findIndex c ps) as [j|]; [|discriminate].
    intros [= <-]. destruct (IH j eq_refl) as (l1 & q & l2 & -> & Hq & Hl & Hlen & Hs).
    exists (p :: l1), q, l2. simpl. repeat split; auto.
    + intros x [<-|Hx]; auto.
    + now rewrite Hs.
Qed.

Lemma findIndex_first (l1 l2 : list Player) (p : Player) :
  id p = c -> (forall q, In q l1 -> id q <> c) ->
  findIndex c (l1 ++ p :: l2) = Some (List.length l1).
Proof.
  intros Hp. induction l1 as [|x l1 IH]; simpl; intros Hl.
  - apply has_id_true in Hp. now rewrite Hp.
  - assert (Hx : has_id c x = false) by (apply has_id_false; apply Hl; auto).
    rewrite Hx, IH; auto.
Qed.

Lemma splice1_middle (l1 l2 : list Player) (p : Player) :
  splice1 (List.length l1) (l1 ++ p :: l2) = l1 ++ l2.
Proof. induction l1 as [|x l1 IH]; simpl; [reflexivity | now rewrite IH]. Qed.

Lemma splice1_length (i : nat) (ps : list Player) :
  List.length (splice1 i ps) <= List.length ps.
Proof.
  revert i. induction ps as [|p ps IH]; intros [|i]; simpl; auto.
  specialize (IH i). lia.
Qed.

(** Entries other than the removed one keep their content; those behind
    it move one place down. *)
Lemma nth_error_splice1 (k i : nat) (ps : list Player) :
  i <> k ->
  nth_error (splice1 k ps) (if k <? i then i - 1 else i) = nth_error ps i.
Proof.
  revert k i. induction ps as [|p ps IH]; intros k i Hne.
  - assert (E : forall n, nth_error (@nil Player) n = None)
      by (intros [|n]; reflexivity).
    simpl splice1. now rewrite !E.
  - destruct k as [|k].
    + destruct i as [|i]; [congruence|]. simpl. now rewrite Nat.sub_0_r.
    + destruct i as [|i]; [reflexivity|].
      simpl splice1. change (S k <? S i) with (k <? i).
      specialize (IH k i ltac:(congruence)).
      destruct (k <? i) eqn:E.
      * apply Nat.ltb_lt in E. destruct i as [|i]; [lia|].
        simpl in *. now rewrite Nat.sub_0_r in *.
      * simpl. exact IH.
Qed.

Lemma find_has_id_None (ps : list Player) :
  find (has_id c) ps = None <-> (forall q, In q ps -> id q <> c).
Proof.
  split.
  - intros H q Hq. apply has_id_false. eapply find_none; eauto.
  - intros H. destruct (find (has_id c) ps) as [p|] eqn:E; [|reflexivity].
    apply find_some in E. destruct E as [Hin Hp]. apply has_id_true in Hp.
    exfalso. eapply H; eauto.
Qed.

Lemma mark_ready_first (l1 l2 : list Player) (p : Player) :
  id p = c -> (forall q, In q l1 -> id q <> c) ->
  mark_ready c (l1 ++ p :: l2) = l1 ++ mkPlayer (id p) (name p) true :: l2.
Proof.
  intros Hp. induction l1 as [|x l1 IH]; simpl; intros Hl.
  - apply has_id_true in Hp. now rewrite Hp.
  - assert (Hx : has_id c x = false) by (apply has_id_false; apply Hl; auto).
    rewrite Hx, IH; auto.
Qed.

Lemma mark_ready_length (ps : list Player) :
  List.length (mark_ready c ps) = List.length ps.
Proof.
  induction ps as [|p ps IH]; simpl; [reflexivity|].
  destruct (has_id c p); simpl; congruence.
Qed.

(** [mark_ready] keeps every entry's id and name and never clears a flag. *)
Lemma nth_error_mark_ready (ps : list Player) (i : nat) (p : Player) :
  nth_error ps i = Some p ->
  exists p', nth_error (mark_ready c ps) i = Some p' /\
    id p' = id p /\ name p' = name p /\ (ready p = true -> ready p' = true).
Proof.
  revert i. induction ps as [|x ps IH]; intros [|i]; simpl; try discriminate.
  - intros [= ->]. destruct (has_id c p); simpl; eexists; split; eauto.
  - intros H. destruct (has_id c x); simpl; eauto.
Qed.

End PlayerFacts.

(** ** Lemmas on the broadcast groups *)

Section GroupFacts.

Lemma In_members (rc : string) (c : SocketId) (g : Groups) :
  In c (members rc g) <-> In (rc, c) g.
Proof.
  unfold members. rewrite in_map_iff. split.
  - intros ([r c'] & <- & H). apply filter_In in H. simpl in *.
    destruct H as [H E]. apply String.eqb_eq in E. now subst.
  - intros H. exists (rc, c). split; [reflexivity|].
    apply filter_In. simpl. now rewrite String.eqb_refl.
Qed.

Lemma in_group_true (rc : string) (c : SocketId) (g : Groups) :
  in_group rc c g = true <-> In (rc, c) g.
Proof.
  unfold in_group. rewrite existsb_exists. split.
  - intros ([r c'] & H & E). simpl in E. apply andb_true_iff in E.
    destruct E as [E1 E2]. apply String.eqb_eq in E1, E2. now subst.
  - intros H. exists (rc, c). simpl. now rewrite !String.eqb_refl.
Qed.

Lemma members_join (rc rc' : string) (c c' : SocketId) (g : Groups) :
  In c' (members rc' (join rc c g)) <->
  In c' (members rc' g) \/ (rc' = rc /\ c' = c).
Proof.
  rewrite !In_members. unfold join.
  destruct (in_group rc c g) eqn:E.
  - apply in_group_true in E. split; [auto|].
    intros [H|[-> ->]]; assumption.
  - rewrite in_app_iff. simpl. split.
    + intros [H|[[= <- <-]|[]]]; auto.
    + intros [H|[-> ->]]; auto.
Qed.

Lemma members_leaveAll (rc : string) (c c' : SocketId) (g : Groups) :
  In c' (members rc (leaveAll c g)) <-> In c' (members rc g) /\ c' <> c.
Proof.
  rewrite !In_members. unfold leaveAll. rewrite filter_In. simpl.
  rewrite negb_true_iff, String.eqb_neq. tauto.
Qed.

Lemma recipients_socket_to (g : Groups) (sender : SocketId) (rc : string)
    (c' : SocketId) :
  In c' (recipients g (socket_to sender rc)) <->
  In c' (members rc g) /\ c' <> sender.
Proof.
  simpl. rewrite filter_In, negb_true_iff, String.eqb_neq. tauto.
Qed.

(** A socket receives a message exactly when it is among the recipients
    of an emission that carries it. *)
Lemma In_deliveries (g : Groups) (out : list Emission) (c : SocketId)
    (m : Message) :
  In (c, m) (deliveries g out) <->
  exists t, In (t, m) out /\ In c (recipients g t).
Proof.
  unfold deliveries. rewrite in_flat_map. split.
  - intros ([t m'] & Hin & H). simpl in H. apply in_map_iff in H.
    destruct H as (x & [= <- <-] & Hx). eauto.
  - intros (t & Hin & Hc). exists (t, m). split; [assumption|].
    simpl. apply in_map_iff. eauto.
Qed.

End GroupFacts.

(** ** Lemmas on [on_disconnect] *)

Section DisconnectFacts.

Variable c : SocketId.

(** With the visited entries [done] behind and [todo] ahead, the loop
    rewrites [todo] as [sweep] does. *)
Lemma fold_disconnect_visit (todo done : RoomMap) (out : list Emission) :
  Map_wf (done ++ todo) ->
  fold_left (disconnect_visit c) todo (done ++ todo, out) =
  (done ++ fst (sweep c todo), out ++ snd (sweep c todo)).
Proof.
  revert done out. induction todo as [|[rc room] todo IH]; intros done out Hwf.
  - simpl. now rewrite !app_nil_r.
  - assert (Hn : ~ In rc (Map_keys done)).
    { unfold Map_wf, Map_keys in Hwf. rewrite map_app in Hwf. simpl in Hwf.
      apply NoDup_remove_2 in Hwf. rewrite in_app_iff in Hwf. tauto. }
    simpl. destruct (findIndex c (players room)) as [i|] eqn:Ei.
    + destruct (List.length (splice1 i (players room)) =? 0) eqn:El; simpl.
      * rewrite Map_delete_middle by assumption. apply IH.
        unfold Map_wf, Map_keys in *. rewrite map_app in *. simpl in Hwf.
        now apply NoDup_remove_1 in Hwf.
      * rewrite (Map_set_middle rc room) by assumption.
        change (done ++ (rc, set_players room (splice1 i (players room))) :: todo)
          with (done ++ [(rc, set_players room (splice1 i (players room)))] ++ todo).
        rewrite app_assoc, IH.
        -- rewrite <- !app_assoc. reflexivity.
        -- unfold Map_wf, Map_keys in *. rewrite <- app_assoc.
           rewrite map_app in *. exact Hwf.
    + simpl. change (done ++ (rc, room) :: todo) with (done ++ [(rc, room)] ++ todo).
      rewrite app_assoc, IH.
      * rewrite <- !app_assoc. reflexivity.
      * now rewrite <- app_assoc.
Qed.

Lemma on_disconnect_sweep (s : Server) :
  Map_wf (gameRooms s) ->
  on_disconnect s c =
  (mkServer (fst (sweep c (gameRooms s))) (groups s),
   snd (sweep c (gameRooms s))).
Proof.
  intros Hwf. unfold on_disconnect.
  change (gameRooms s, @nil Emission) with ([] ++ gameRooms s, @nil Emission).
  now rewrite fold_disconnect_visit.
Qed.

Lemma sweep_keys (m : RoomMap) :
  forall k, In k (Map_keys (fst (sweep c m))) -> In k (Map_keys m).
Proof.
  induction m as [|[rc room] m IH]; simpl; [tauto|].
  intros k. destruct (findIndex c (players room)) as [i|].
  - destruct (List.length (splice1 i (players room)) =? 0); simpl; intuition.
  - simpl. intuition.
Qed.

Lemma sweep_wf (m : RoomMap) : Map_wf m -> Map_wf (fst (sweep c m)).
Proof.
  unfold Map_wf. induction m as [|[rc room] m IH]; simpl; [auto|].
  intros H. inversion H as [|? ? Hn Hm]; subst.
  assert (Hn' : ~ In rc (Map_keys (fst (sweep c m))))
    by (intros Hin; apply Hn; now apply sweep_keys).
  destruct (findIndex c (players room)) as [i|].
  - destruct (List.length (splice1 i (players room)) =? 0); simpl; auto.
    constructor; auto.
  - simpl. constructor; auto.
Qed.

Lemma sweep_get_None (m : RoomMap) (rc : string) :
  Map_get rc m = None -> Map_get rc (fst (sweep c m)) = None.
Proof.
  rewrite !Map_get_None_keys. intros H Hin. apply H. now apply sweep_keys.
Qed.

(** A room without the socket is left as it is. *)
Lemma sweep_get_absent (m : RoomMap) (rc : string) (room : Room) :
  Map_get rc m = Some room -> findIndex c (players room) = None ->
  Map_get rc (fst (sweep c m)) = Some room.
Proof.
  induction m as [|[k v] m IH]; simpl; [discriminate|].
  destruct (String.eqb_spec k rc) as [->|Hk].
  - intros [= ->] Hf. rewrite Hf. simpl. now rewrite String.eqb_refl.
  - intros Hg Hf. specialize (IH Hg Hf).
    destruct (findIndex c (players v)) as [i|].
    + destruct (List.length (splice1 i (players v)) =? 0); simpl; auto.
      destruct (String.eqb_spec k rc); congruence.
    + simpl. destruct (String.eqb_spec k rc); congruence.
Qed.

(** A room that keeps a player after the removal stays, with the
    shortened list, and both notices are sent to its group. *)
Lemma sweep_get_kept (m : RoomMap) (rc : string) (room : Room) (i : nat) :
  Map_get rc m = Some room -> findIndex c (players room) = Some i ->
  splice1 i (players room) <> [] ->
  Map_get rc (fst (sweep c m)) =
    Some (set_players room (splice1 i (players room))) /\
  In (io_to rc, playersUpdate (splice1 i (players room))) (snd (sweep c m)) /\
  In (io_to rc, playerDisconnected c) (snd (sweep c m)).
Proof.
  intros Hg Hf Hne.
  assert (Hl : (List.length (splice1 i (players room)) =? 0) = false).
  { apply Nat.eqb_neq. destruct (splice1 i (players room)); simpl; congruence. }
  induction m as [|[k v] m IH]; simpl in *; [discriminate|].
  destruct (String.eqb_spec k rc) as [->|Hk].
  - injection Hg as ->. rewrite Hf, Hl. simpl. rewrite String.eqb_refl. auto.
  - specialize (IH Hg). destruct IH as (H1 & H2 & H3).
    destruct (findIndex c (players v)) as [j|].
    + destruct (List.length (splice1 j (players v)) =? 0); simpl; auto.
      destruct (String.eqb_spec k rc); [congruence|]. auto.
    + simpl. destruct (String.eqb_spec k rc); [congruence|]. auto.
Qed.

(** A room the removal empties is no longer registered. *)
Lemma sweep_get_deleted (m : RoomMap) (rc : string) (room : Room) (i : nat) :
  Map_wf m ->
  Map_get rc m = Some room -> findIndex c (players room) = Some i ->
  splice1 i (players room) = [] ->
  Map_get rc (fst (sweep c m)) = None.
Proof.
  unfold Map_wf. intros Hwf Hg Hf He.
  induction m as [|[k v] m IH]; simpl in *; [discriminate|].
  inversion Hwf as [|? ? Hn Hm]; subst.
  destruct (String.eqb_spec k rc) as [->|Hk].
  - injection Hg as ->. rewrite Hf, He. simpl.
    apply sweep_get_None. now apply Map_get_None_keys.
  - specialize (IH Hm Hg).
    destruct (findIndex c (players v)) as [j|].
    + destruct (List.length (splice1 j (players v)) =? 0); simpl; auto.
      destruct (String.eqb_spec k rc); [congruence|]. auto.
    + simpl. destruct (String.eqb_spec k rc); [congruence|]. auto.
Qed.

(** Nothing happens when no room has the socket among its players. *)
Lemma sweep_nobody (m : RoomMap) :
  (forall rc room, In (rc, room) m -> findIndex c (players room) = None) ->
  sweep c m = (m, []).
Proof.
  induction m as [|[k v] m IH]; simpl; [reflexivity|].
  intros H. rewrite (H k v) by auto. rewrite IH by (intros; eapply H; eauto).
  reflexivity.
Qed.

(** Every message of the loop is one of the two notices, sent to the
    group of a room that had the socket among its players. *)
Lemma sweep_emissions (m : RoomMap) (t : Target) (msg : Message) :
  In (t, msg) (snd (sweep c m)) ->
  exists rc room i, In (rc, room) m /\
    findIndex c (players room) = Some i /\ t = io_to rc /\
    (msg = playersUpdate (splice1 i (players room)) \/
     msg = playerDisconnected c).
Proof.
  induction m as [|[k v] m IH]; simpl; [tauto|].
  assert (Hrest : In (t, msg) (snd (sweep c m)) ->
    exists rc room i, ((k, v) = (rc, room) \/ In (rc, room) m) /\
     findIndex c (players room) = Some i /\ t = io_to rc /\
     (msg = playersUpdate (splice1 i (players room)) \/
      msg = playerDisconnected c)).
  { intros H. destruct (IH H) as (rc & room & i & H1 & H2). eauto 8. }
  destruct (findIndex c (players v)) as [j|] eqn:Ej; simpl; auto.
  destruct (List.length (splice1 j (players v)) =? 0); simpl; auto.
  intros [[= <- <-]|[[= <- <-]|H]]; auto; exists k, v, j; auto.
Qed.

(** A notice is sent only for a room that keeps a player. *)
Lemma sweep_emissions_kept (m : RoomMap) (t : Target) (msg : Message) :
  In (t, msg) (snd (sweep c m)) ->
  exists rc room i, In (rc, room) m /\
    findIndex c (players room) = Some i /\
    splice1 i (players room) <> [] /\ t = io_to rc /\
    (msg = playersUpdate (splice1 i (players room)) \/
     msg = playerDisconnected c).
Proof.
  induction m as [|[k v] m IH]; simpl; [tauto|].
  assert (Hrest : In (t, msg) (snd (sweep c m)) ->
    exists rc room i, ((k, v) = (rc, room) \/ In (rc, room) m) /\
     findIndex c (players room) = Some i /\
     splice1 i (players room) <> [] /\ t = io_to rc /\
     (msg = playersUpdate (splice1 i (players room)) \/
      msg = playerDisconnected c)).
  { intros H. destruct (IH H) as (rc & room & i & H1 & H2). eauto 8. }
  destruct (findIndex c (players v)) as [j|] eqn:Ej; simpl; auto.
  destruct (splice1 j (players v)) as [|x l] eqn:Es; simpl; auto.
  intros [[= <- <-]|[[= <- <-]|H]]; auto; exists k, v, j;
    rewrite Es; repeat split; auto; discriminate.
Qed.

End DisconnectFacts.

(** ** Room codes *)

Section RoomCodeFacts.

Lemma toUpperCase_length (s : string) :
  String.length (toUpperCase s) = String.length s.
Proof. induction s as [|a s IH]; simpl; congruence. Qed.

Lemma substring_length_le (n m : nat) (s : string) :
  String.length (String.substring n m s) <= m.
Proof.
  revert n m. induction s as [|a s IH]; intros [|n] [|m]; simpl; try lia.
  - specialize (IH 0 m). lia.
  - apply (IH n 0).
  - apply (IH n (S m)).
Qed.

Lemma substring_length (n m : nat) (s : string) :
  String.length (String.substring n m s) = Nat.min m (String.length s - n).
Proof.
  revert n m. induction s as [|a s IH]; intros [|n] [|m]; simpl; try lia.
  - rewrite (IH 0 m). lia.
  - apply (IH n 0).
  - apply (IH n (S m)).
Qed.

(** The length of the code: six when the rendering has six fractional
    digits or more, the number of its fractional digits otherwise. *)
Lemma roomCodeOf_length (s : string) :
  String.length (roomCodeOf s) = Nat.min 6 (String.length s - 2).
Proof.
  unfold roomCodeOf, js_substring. rewrite toUpperCase_length.
  apply substring_length.
Qed.

Lemma string_forallb_substring (f : ascii -> bool) (n m : nat) (s : string) :
  string_forallb f s = true ->
  string_forallb f (String.substring n m s) = true.
Proof.
  revert n m. induction s as [|a s IH]; intros [|n] [|m]; simpl; auto.
  - intros H. apply andb_true_iff in H. destruct H as [-> H]. simpl. auto.
  - intros H. apply andb_true_iff in H. apply IH. tauto.
  - intros H. apply andb_true_iff in H. apply IH. tauto.
Qed.

Lemma string_forallb_upper (f : ascii -> bool) (s : string) :
  string_forallb (fun a => f (upper_ascii a)) s = true ->
  string_forallb f (toUpperCase s) = true.
Proof.
  induction s as [|a s IH]; simpl; auto.
  intros H. apply andb_true_iff in H. destruct H as [-> H]. simpl. auto.
Qed.

Lemma lower_upper_alnum (a : ascii) :
  lower_alnum a = true -> upper_alnum (upper_ascii a) = true.
Proof.
  destruct a as [b0 b1 b2 b3 b4 b5 b6 b7].
  destruct b0, b1, b2, b3, b4, b5, b6, b7; vm_compute; congruence.
Qed.

Lemma string_forallb_impl (f g : ascii -> bool) (s : string) :
  (forall a, f a = true -> g a = true) ->
  string_forallb f s = true -> string_forallb g s = true.
Proof.
  intros Hfg. induction s as [|a s IH]; simpl; auto.
  intros H. apply andb_true_iff in H. destruct H as [Ha Hs].
  now rewrite (Hfg a Ha), IH.
Qed.

Lemma digit36_lower_alnum (d : N) :
  (d < 36)%N -> lower_alnum (digit36 d) = true.
Proof.
  intros H.
  assert (Hall : forallb (fun n => lower_alnum (digit36 (N.of_nat n)))
                   (seq 0 36) = true) by (vm_compute; reflexivity).
  rewrite forallb_forall in Hall.
  rewrite <- (N2Nat.id d). apply Hall. apply in_seq. lia.
Qed.

Lemma fraction_digits_alnum (fuel : nat) (f : N) :
  (f < two53)%N ->
  string_forallb lower_alnum (fraction_digits fuel f) = true.
Proof.
  revert f. induction fuel as [|k IH]; intros f Hf; simpl; [reflexivity|].
  destruct (f =? 0)%N; simpl; [reflexivity|].
  rewrite digit36_lower_alnum, IH; [reflexivity | | ].
  - apply N.mod_lt. discriminate.
  - apply N.Div0.div_lt_upper_bound. unfold two53 in *. lia.
Qed.

Lemma toString36_rendering (m : N) :
  (m < two53)%N -> rendering (toString36 m) = true.
Proof.
  intros Hm. unfold toString36. destruct (m =? 0)%N eqn:E; [reflexivity|].
  pose proof (fraction_digits_alnum 27 m Hm) as H.
  change (fraction_digits 27 m) with
    (if (m =? 0)%N then EmptyString
     else String (digit36 (m * 36 / two53))
                 (fraction_digits 26 ((m * 36) mod two53))) in *.
  rewrite E in *. exact H.
Qed.

(** What does hold of the code made from any rendering: it has at most
    six characters, all of them digits or upper-case letters. *)
Lemma roomCodeOf_shape (s : string) :
  rendering s = true ->
  String.length (roomCodeOf s) <= 6 /\
  string_forallb upper_alnum (roomCodeOf s) = true.
Proof.
  intros Hr. unfold roomCodeOf, js_substring. split.
  - rewrite toUpperCase_length. apply (substring_length_le 2 6).
  - apply string_forallb_upper.
    destruct s as [|a [|b [|d ds]]]; try reflexivity.
    change (String.substring 2 (8 - 2) (String a (String b (String d ds))))
      with (String.substring 0 6 (String d ds)).
    apply string_forallb_substring.
    apply (string_forallb_impl lower_alnum); [apply lower_upper_alnum|].
    destruct a as [[] [] [] [] [] [] [] []]; try discriminate Hr;
      destruct b as [[] [] [] [] [] [] [] []]; try discriminate Hr.
    exact Hr.
Qed.

Lemma generateRoomCode_shape (m : N) :
  (m < two53)%N ->
  String.length (generateRoomCode m) <= 6 /\
  string_forallb upper_alnum (generateRoomCode m) = true.
Proof.
  intros Hm. apply roomCodeOf_shape. now apply toString36_rendering.
Qed.

(** C8. The room code is not always six characters long: when
    [Math.random()] returns 0.5, whose rendering in radix 36 is ["0.i"],
    [generateRoomCode] returns the one-character code ["I"]; when it
    returns 0, rendered ["0"], the code is the empty string. *)
Theorem generateRoomCode_short :
  toString36 (two53 / 2) = "0.i" /\
  roomCodeOf "0.i" = "I" /\
  generateRoomCode (two53 / 2) = "I" /\
  String.length (generateRoomCode (two53 / 2)) <> 6 /\
  roomCodeOf "0" = "" /\
  generateRoomCode 0 = "".
Proof. repeat split; vm_compute; congruence. Qed.

End RoomCodeFacts.

(** ** createRoom *)

(** X2. createRoom registers, under the code drawn, a room that has not
    started, has no game state and has the caller as its only player, not
    ready; a room registered under that code before is replaced.  The
    caller enters the code's group and alone is told. *)
Lemma createRoom_effect (s : Server) (c : SocketId) (rnd : N) (nm : string) :
  let rc := generateRoomCode rnd in
  let s' := fst (step s c (createRoom rnd nm)) in
  Map_get rc (gameRooms s') =
    Some (mkRoom rc [mkPlayer c nm false] None false) /\
  (forall rc', rc' <> rc ->
     Map_get rc' (gameRooms s') = Map_get rc' (gameRooms s)) /\
  In c (members rc (groups s')) /\
  snd (step s c (createRoom rnd nm)) = [(to_socket c, roomCreated rc c)].
Proof.
  simpl. split; [apply Map_get_set_same|].
  split; [intros rc' Hne; now apply Map_get_set_other|].
  split; [|reflexivity]. apply members_join. now right.
Qed.

(** ** joinRoom *)

Section JoinRoom.

Variables (s : Server) (c : SocketId) (rc nm : string).

(** C2. joinRoom fails in exactly three cases, tested in this order: no
    room is registered under the code; the room has started (however
    many players it has); the room has five or more players (whatever
    their ready flags).  Each failure sends one [error] message to the
    caller alone and leaves the server state as it was.  In every other
    case the state changes and no [error] is sent. *)
Theorem joinRoom_failures :
  (Map_get rc (gameRooms s) = None ->
   step s c (joinRoom rc nm) = (s, [(to_socket c, error "Room not found")])) /\
  (forall room, Map_get rc (gameRooms s) = Some room ->
   started room = true ->
   step s c (joinRoom rc nm) =
     (s, [(to_socket c, error "Game already started")])) /\
  (forall room, Map_get rc (gameRooms s) = Some room ->
   started room = false -> 5 <= List.length (players room) ->
   step s c (joinRoom rc nm) = (s, [(to_socket c, error "Room is full")])) /\
  (forall room, Map_get rc (gameRooms s) = Some room ->
   started room = false -> List.length (players room) < 5 ->
   fst (step s c (joinRoom rc nm)) <> s /\
   forall t m, In (t, m) (snd (step s c (joinRoom rc nm))) ->
               is_error m = false).
Proof.
  simpl. unfold on_joinRoom. split; [|split; [|split]].
  - intros ->. reflexivity.
  - intros room -> ->. reflexivity.
  - intros room -> -> H. apply Nat.leb_le in H. now rewrite H.
  - intros room Hg Hs Hl. rewrite Hg, Hs. apply Nat.leb_gt in Hl.
    rewrite Hl. simpl. split.
    + intros E. apply (f_equal (fun x => Map_get rc (gameRooms x))) in E.
      simpl in E. rewrite Map_get_set_same, Hg in E.
      injection E as E. apply (f_equal players) in E. simpl in E.
      apply (f_equal (@List.length Player)) in E.
      rewrite length_app in E. simpl in E. lia.
    + intros t m [[= <- <-]|[[= <- <-]|[]]]; reflexivity.
Qed.

(** C3. A joinRoom that passes the three tests puts a new player with
    [ready = false] behind the players already in the room, sends
    [roomJoined] with the room code and the caller's id to the caller
    alone, and sends [playersUpdate] with the whole new player list to
    the room's group, which by then contains the caller next to everyone
    who was in it. *)
Theorem joinRoom_success (room : Room) :
  Map_get rc (gameRooms s) = Some room ->
  started room = false -> List.length (players room) < 5 ->
  let ps := players room ++ [mkPlayer c nm false] in
  let s' := fst (step s c (joinRoom rc nm)) in
  let out := snd (step s c (joinRoom rc nm)) in
  Map_get rc (gameRooms s') = Some (set_players room ps) /\
  (forall rc', rc' <> rc ->
     Map_get rc' (gameRooms s') = Map_get rc' (gameRooms s)) /\
  out = [(to_socket c, roomJoined rc c); (io_to rc, playersUpdate ps)] /\
  recipients (groups s') (to_socket c) = [c] /\
  (forall c', In c' (recipients (groups s') (io_to rc)) <->
              (In c' (members rc (groups s)) \/ c' = c)) /\
  (forall c' m, In (c', m) (deliveries (groups s') out) <->
     (c' = c /\ m = roomJoined rc c) \/
     ((In c' (members rc (groups s)) \/ c' = c) /\ m = playersUpdate ps)).
Proof.
  intros Hg Hs Hl ps.
  assert (Hstep : step s c (joinRoom rc nm) =
    (mkServer (Map_set rc (set_players room ps) (gameRooms s))
              (join rc c (groups s)),
     [(to_socket c, roomJoined rc c); (io_to rc, playersUpdate ps)])).
  { simpl. unfold on_joinRoom. rewrite Hg, Hs.
    apply Nat.leb_gt in Hl. now rewrite Hl. }
  rewrite Hstep. cbn [fst snd gameRooms groups].
  assert (Hm : forall c', In c' (members rc (join rc c (groups s))) <->
                          (In c' (members rc (groups s)) \/ c' = c)).
  { intros c'. rewrite members_join. tauto. }
  repeat split.
  - apply Map_get_set_same.
  - intros rc' Hne. now apply Map_get_set_other.
  - apply Hm.
  - apply Hm.
  - rewrite In_deliveries. intros (t & [[= <- <-]|[[= <- <-]|[]]] & Hc).
    + simpl in Hc. destruct Hc as [<-|[]]. tauto.
    + right. split; [now apply Hm | reflexivity].
  - rewrite In_deliveries. intros [[-> ->] | [Hc ->]].
    + exists (to_socket c). simpl. tauto.
    + eexists (io_to rc). split; [simpl; eauto | now apply Hm].
Qed.

End JoinRoom.

(** ** playerReady *)

Section PlayerReady.

Variables (s : Server) (c : SocketId) (rc : string).

(** What [on_playerReady] does once the room and the caller's entry
    [p], behind [l1] and before [l2], are found. *)
Lemma on_playerReady_found (room : Room) (l1 l2 : list Player) (p : Player) :
  Map_get rc (gameRooms s) = Some room ->
  players room = l1 ++ p :: l2 -> id p = c ->
  (forall q, In q l1 -> id q <> c) ->
  let ps := l1 ++ mkPlayer (id p) (name p) true :: l2 in
  on_playerReady s c rc =
    if (2 <=? List.length ps) && forallb ready ps
    then (mkServer (Map_set rc (set_started (set_players room ps)) (gameRooms s))
                   (groups s),
          [(io_to rc, playersUpdate ps); (io_to rc, gameStart ps)])
    else (mkServer (Map_set rc (set_players room ps) (gameRooms s)) (groups s),
          [(io_to rc, playersUpdate ps)]).
Proof.
  intros Hg Hp Hid Hl1 ps. unfold on_playerReady. rewrite Hg.
  destruct (find (has_id c) (players room)) as [x|] eqn:Ef.
  - rewrite Hp, mark_ready_first by assumption. reflexivity.
  - exfalso. rewrite find_has_id_None in Ef. apply (Ef p); [|assumption].
    rewrite Hp. apply in_elt.
Qed.

(** C6. playerReady does nothing at all (same state, no message) when no
    room is registered under the code or the caller is not among the
    room's players.  Otherwise the caller's entry, and no other entry,
    gets [ready = true] (the room keeps its code and game state, other
    rooms and the groups are untouched) and [playersUpdate] with the new
    list goes to the whole group of the room, followed by [gameStart]
    or by nothing. *)
Theorem playerReady_effect :
  (Map_get rc (gameRooms s) = None -> step s c (playerReady rc) = (s, [])) /\
  (forall room, Map_get rc (gameRooms s) = Some room ->
     (forall q, In q (players room) -> id q <> c) ->
     step s c (playerReady rc) = (s, [])) /\
  (forall room l1 p l2, Map_get rc (gameRooms s) = Some room ->
     players room = l1 ++ p :: l2 -> id p = c ->
     (forall q, In q l1 -> id q <> c) ->
     let ps := l1 ++ mkPlayer (id p) (name p) true :: l2 in
     let s' := fst (step s c (playerReady rc)) in
     let out := snd (step s c (playerReady rc)) in
     (exists room', Map_get rc (gameRooms s') = Some room' /\
        players room' = ps /\ code room' = code room /\
        gameState room' = gameState room) /\
     (forall rc', rc' <> rc ->
        Map_get rc' (gameRooms s') = Map_get rc' (gameRooms s)) /\
     groups s' = groups s /\
     (out = [(io_to rc, playersUpdate ps)] \/
      out = [(io_to rc, playersUpdate ps); (io_to rc, gameStart ps)]) /\
     (forall c', In (c', playersUpdate ps) (deliveries (groups s') out) <->
                 In c' (members rc (groups s)))).
Proof.
  split; [|split].
  - intros H. simpl. unfold on_playerReady. now rewrite H.
  - intros room H Hno. simpl. unfold on_playerReady. rewrite H.
    apply find_has_id_None in Hno. now rewrite Hno.
  - intros room l1 p l2 Hg Hp Hid Hl1 ps.
    change (step s c (playerReady rc)) with (on_playerReady s c rc).
    rewrite (on_playerReady_found room l1 l2 p) by assumption. fold ps.
    destruct ((2 <=? List.length ps) && forallb ready ps);
      cbn [fst snd gameRooms groups].
    + split; [|split; [|split; [|split]]].
      * eexists. split; [apply Map_get_set_same|]. simpl. auto.
      * intros rc' Hne. now apply Map_get_set_other.
      * reflexivity.
      * now right.
      * intros c'. rewrite In_deliveries. split.
        -- intros (t & [E|[E|[]]] & Hc); inversion E; subst. exact Hc.
        -- intros H. exists (io_to rc). simpl. auto.
    + split; [|split; [|split; [|split]]].
      * eexists. split; [apply Map_get_set_same|]. simpl. auto.
      * intros rc' Hne. now apply Map_get_set_other.
      * reflexivity.
      * now left.
      * intros c'. rewrite In_deliveries. split.
        -- intros (t & [E|[]] & Hc); inversion E; subst. exact Hc.
        -- intros H. exists (io_to rc). simpl. auto.
Qed.

End PlayerReady.

(** ** gameStart *)

Section GameStart.

(** The three ways [on_playerReady] can go. *)
Lemma on_playerReady_cases (s : Server) (c : SocketId) (rc : string) :
  (on_playerReady s c rc = (s, []) /\
   (Map_get rc (gameRooms s) = None \/
    exists room, Map_get rc (gameRooms s) = Some room /\
                 forall q, In q (players room) -> id q <> c)) \/
  (exists room, Map_get rc (gameRooms s) = Some room /\
     (exists p, In p (players room) /\ id p = c) /\
     let ps := mark_ready c (players room) in
     ((2 <= List.length ps /\ (forall q, In q ps -> ready q = true) /\
       on_playerReady s c rc =
         (mkServer (Map_set rc (set_started (set_players room ps)) (gameRooms s))
                   (groups s),
          [(io_to rc, playersUpdate ps); (io_to rc, gameStart ps)])) \/
      (~ (2 <= List.length ps /\ (forall q, In q ps -> ready q = true)) /\
       on_playerReady s c rc =
         (mkServer (Map_set rc (set_players room ps) (gameRooms s)) (groups s),
          [(io_to rc, playersUpdate ps)])))).
Proof.
  unfold on_playerReady. destruct (Map_get rc (gameRooms s)) as [room|] eqn:Hg.
  2: { left. auto. }
  destruct (find (has_id c) (players room)) as [p|] eqn:Ef.
  2: { left. split; [reflexivity|]. right. exists room. split; [reflexivity|].
       now apply find_has_id_None. }
  right. exists room. split; [reflexivity|]. split.
  { apply find_some in Ef. exists p. split; [tauto|]. now apply has_id_true. }
  cbv zeta.
  destruct ((2 <=? List.length (mark_ready c (players room)))
            && forallb ready (mark_ready c (players room))) eqn:E.
  - left. apply andb_true_iff in E. destruct E as [E1 E2].
    apply Nat.leb_le in E1. rewrite forallb_forall in E2.
    repeat split; auto.
  - right. split; [|reflexivity]. intros [H1 H2].
    apply Nat.leb_le in H1. rewrite <- forallb_forall in H2.
    rewrite H1, H2 in E. discriminate.
Qed.

Lemma fold_disconnect_no_gameStart (c : SocketId) (todo : RoomMap)
    (acc : RoomMap * list Emission) (t : Target) (ps : list Player) :
  ~ In (t, gameStart ps) (snd acc) ->
  ~ In (t, gameStart ps) (snd (fold_left (disconnect_visit c) todo acc)).
Proof.
  revert acc. induction todo as [|[rc room] todo IH]; intros acc H; simpl; auto.
  apply IH. destruct (findIndex c (players room)) as [i|]; auto.
  destruct (List.length (splice1 i (players room)) =? 0); simpl; auto.
  rewrite in_app_iff. simpl. intros [Hin|[[=]|[[=]|[]]]]. auto.
Qed.

(** When [gameStart] is sent, and what the room is then. *)
Lemma gameStart_emitted (s : Server) (c : SocketId) (ev : Event) :
  let s' := fst (step s c ev) in
  let out := snd (step s c ev) in
  (forall t ps, In (t, gameStart ps) out <->
     exists rc room room',
       ev = playerReady rc /\ t = io_to rc /\
       Map_get rc (gameRooms s) = Some room /\
       (exists p, In p (players room) /\ id p = c) /\
       Map_get rc (gameRooms s') = Some room' /\
       ps = players room' /\
       2 <= List.length (players room') /\
       (forall q, In q (players room') -> ready q = true)) /\
  (forall rc ps, In (io_to rc, gameStart ps) out ->
     exists room', Map_get rc (gameRooms s') = Some room' /\
                   started room' = true).
Proof.
  destruct ev as [rnd nm|rc0 nm|rc0|rc0 g|rc0 a d|]; cbn zeta.
  3: {
    change (step s c (playerReady rc0)) with (on_playerReady s c rc0).
    destruct (on_playerReady_cases s c rc0)
      as [[-> Hno]|(room & Hg & Hp & [(H2 & Hall & ->)|(Hn & ->)])];
      cbn [fst snd gameRooms].
    - split; [|intros rc ps []].
      intros t ps. split; [intros []|].
      intros (rc & room & room' & [= <-] & _ & Hg & (p & Hp & Hid) & _).
      destruct Hno as [Hno|(room0 & Hg0 & Hno)]; [congruence|].
      rewrite Hg in Hg0. injection Hg0 as <-. exact (Hno p Hp Hid).
    - split.
      + intros t ps. split.
        * intros [[=]|[[= <- <-]|[]]].
          exists rc0, room, (set_started (set_players room (mark_ready c (players room)))).
          rewrite Map_get_set_same. simpl. repeat split; auto.
        * intros (rc & room0 & room' & [= <-] & -> & _ & _ & Hg' & -> & _).
          rewrite Map_get_set_same in Hg'. injection Hg' as <-. simpl. auto.
      + intros rc ps [[=]|[[= <- <-]|[]]].
        eexists. split; [apply Map_get_set_same | reflexivity].
    - split.
      + intros t ps. split; [intros [[=]|[]]|].
        intros (rc & room0 & room' & [= <-] & -> & _ & _ & Hg' & -> & Hl & Hr).
        rewrite Map_get_set_same in Hg'. injection Hg' as <-. simpl in *.
        exfalso. apply Hn. auto.
      + intros rc ps [[=]|[]]. }
  5: {
    split.
    - intros t ps. split.
      + intros H. exfalso. revert H. apply fold_disconnect_no_gameStart.
        intros [].
      + intros (rc & _ & _ & [=] & _).
    - intros rc ps H. exfalso. revert H. apply fold_disconnect_no_gameStart.
      intros []. }
  all: split;
    [ intros t ps; split; [|intros (rc & _ & _ & [=] & _)]
    | intros rc ps ]; simpl.
  - intros [[=]|[]].
  - intros [[=]|[]].
  - unfold on_joinRoom. destruct (Map_get rc0 (gameRooms s)) as [room|].
    + destruct (started room); [intros [[=]|[]]|].
      destruct (5 <=? List.length (players room)); simpl;
        [intros [[=]|[]] | intros [[=]|[[=]|[]]]].
    + intros [[=]|[]].
  - unfold on_joinRoom. destruct (Map_get rc0 (gameRooms s)) as [room|].
    + destruct (started room); [intros [[=]|[]]|].
      destruct (5 <=? List.length (players room)); simpl;
        [intros [[=]|[]] | intros [[=]|[[=]|[]]]].
    + intros [[=]|[]].
  - unfold on_gameStateUpdate. destruct (Map_get rc0 (gameRooms s));
      simpl; [intros [[=]|[]] | intros []].
  - unfold on_gameStateUpdate. destruct (Map_get rc0 (gameRooms s));
      simpl; [intros [[=]|[]] | intros []].
  - intros [[=]|[]].
  - intros [[=]|[]].
Qed.

(** A playerReady never takes a room's [started] mark away. *)
Lemma playerReady_keeps_started (s : Server) (c : SocketId)
    (rc0 rc : string) (room room' : Room) :
  Map_get rc (gameRooms s) = Some room -> started room = true ->
  Map_get rc (gameRooms (fst (step s c (playerReady rc0)))) = Some room' ->
  started room' = true.
Proof.
  intros Hg Hs.
  change (step s c (playerReady rc0)) with (on_playerReady s c rc0).
  destruct (on_playerReady_cases s c rc0)
    as [[-> _]|(room0 & Hg0 & _ & [(_ & _ & ->)|(_ & ->)])];
    cbn [fst gameRooms].
  - congruence.
  - rewrite Map_get_set_cases.
    destruct (String.eqb_spec rc0 rc) as [->|Hne]; [|congruence].
    intros [= <-]. reflexivity.
  - rewrite Map_get_set_cases.
    destruct (String.eqb_spec rc0 rc) as [->|Hne]; [|congruence].
    intros [= <-]. simpl. congruence.
Qed.

(** C1 (as amended). An event makes the server send [gameStart] exactly
    when it is a playerReady of a player of a registered room after
    which that room has at least two players, all of them ready; the
    message goes to the room's group with the room's player list, and
    the room is then marked started.  Whether the room had started
    before plays no part in this, and a playerReady leaves a started
    room started. *)
Theorem gameStart_iff (s : Server) (c : SocketId) (ev : Event) :
  let s' := fst (step s c ev) in
  let out := snd (step s c ev) in
  (forall t ps, In (t, gameStart ps) out <->
     exists rc room room',
       ev = playerReady rc /\ t = io_to rc /\
       Map_get rc (gameRooms s) = Some room /\
       (exists p, In p (players room) /\ id p = c) /\
       Map_get rc (gameRooms s') = Some room' /\
       ps = players room' /\
       2 <= List.length (players room') /\
       (forall q, In q (players room') -> ready q = true)) /\
  (forall rc ps, In (io_to rc, gameStart ps) out ->
     exists room', Map_get rc (gameRooms s') = Some room' /\
                   started room' = true) /\
  (forall rc0 rc room room', ev = playerReady rc0 ->
     Map_get rc (gameRooms s) = Some room -> started room = true ->
     Map_get rc (gameRooms s') = Some room' -> started room' = true).
Proof.
  cbv zeta. destruct (gameStart_emitted s c ev) as [Hiff Hstarted].
  split; [exact Hiff|]. split; [exact Hstarted|].
  intros rc0 rc room room' ->. apply playerReady_keeps_started.
Qed.

End GameStart.

(** ** gameStateUpdate and playerAction *)

Section Relay.

Variables (s : Server) (c : SocketId) (rc : string).

(** C9. gameStateUpdate never asks whether the caller is a player of the
    room.  For a registered room it stores the payload as the room's
    game state, whoever the caller is, and sends [gameStateChanged] to
    the room's group without the caller; other rooms and the groups are
    untouched.  Only for an unregistered code does it do nothing. *)
Theorem gameStateUpdate_effect (g : payload) :
  (Map_get rc (gameRooms s) = None ->
   step s c (gameStateUpdate rc g) = (s, [])) /\
  (forall room, Map_get rc (gameRooms s) = Some room ->
     let s' := fst (step s c (gameStateUpdate rc g)) in
     let out := snd (step s c (gameStateUpdate rc g)) in
     Map_get rc (gameRooms s') = Some (set_gameState room g) /\
     (forall rc', rc' <> rc ->
        Map_get rc' (gameRooms s') = Map_get rc' (gameRooms s)) /\
     groups s' = groups s /\
     out = [(socket_to c rc, gameStateChanged g)] /\
     (forall c' m, In (c', m) (deliveries (groups s') out) <->
        m = gameStateChanged g /\ In c' (members rc (groups s)) /\ c' <> c)).
Proof.
  split.
  - intros H. simpl. unfold on_gameStateUpdate. now rewrite H.
  - intros room Hg.
    change (step s c (gameStateUpdate rc g)) with (on_gameStateUpdate s c rc g).
    unfold on_gameStateUpdate. rewrite Hg. cbn [fst snd gameRooms groups].
    split; [apply Map_get_set_same|].
    split; [intros rc' Hne; now apply Map_get_set_other|].
    split; [reflexivity|]. split; [reflexivity|].
    intros c' m. rewrite In_deliveries. split.
    + intros (t & [E|[]] & Hc). inversion E; subst.
      apply recipients_socket_to in Hc. tauto.
    + intros (-> & Hc). exists (socket_to c rc). split; [now left|].
      now apply recipients_socket_to.
Qed.

(** C7. playerAction looks up nothing and changes nothing: whatever the
    state is, and whether or not a room is registered under the code,
    the one message it sends is [playerAction] with the caller's id, the
    action and the data, to the whole group of that code, so that every
    socket in the group receives it, the caller too when it is in it. *)
Theorem playerAction_relay (action data : payload) :
  step s c (playerAction rc action data) =
    (s, [(io_to rc, playerActionMsg c action data)]) /\
  (forall c' m,
     In (c', m) (deliveries (groups s)
                   (snd (step s c (playerAction rc action data)))) <->
     m = playerActionMsg c action data /\ In c' (members rc (groups s))).
Proof.
  split; [reflexivity|]. intros c' m. rewrite In_deliveries. simpl. split.
  - intros (t & [E|[]] & Hc). inversion E; subst. auto.
  - intros [-> Hc]. exists (io_to rc). auto.
Qed.

End Relay.

(** ** disconnect *)

Section Disconnect.

Variables (s : Server) (c : SocketId).

(** X20. When socket [c] disconnects, every room in which it has an
    entry loses the first of them, the one [findIndex] finds, [p] between
    [l1] and [l2], and keeps the others in their order; [c] is then a
    player of the room no more if it had no second entry there.  A room
    left without players is no longer registered.  A room left with
    players stays registered with the shortened list, and [playersUpdate]
    with that list and [playerDisconnected] with [c]'s id are sent to its
    group, of which [c] is no longer part.  Rooms without [c] are left
    alone; every message sent is one of these two notices, for a room
    that had [c] as a player and is still registered, with players; and
    when no room has [c] as a player the registry is unchanged and
    nothing is sent. *)
Theorem disconnect_effect :
  Map_wf (gameRooms s) ->
  let s' := fst (step s c disconnect) in
  let out := snd (step s c disconnect) in
  (forall rc room l1 p l2, Map_get rc (gameRooms s) = Some room ->
     players room = l1 ++ p :: l2 -> id p = c ->
     (forall q, In q l1 -> id q <> c) ->
     ((forall q, In q l2 -> id q <> c) ->
      forall room', Map_get rc (gameRooms s') = Some room' ->
      forall q, In q (players room') -> id q <> c) /\
     (l1 ++ l2 = [] -> Map_get rc (gameRooms s') = None) /\
     (l1 ++ l2 <> [] ->
        Map_get rc (gameRooms s') = Some (set_players room (l1 ++ l2)) /\
        In (io_to rc, playersUpdate (l1 ++ l2)) out /\
        In (io_to rc, playerDisconnected c) out /\
        ~ In c (recipients (groups s') (io_to rc)))) /\
  (forall rc room, Map_get rc (gameRooms s) = Some room ->
     (forall q, In q (players room) -> id q <> c) ->
     Map_get rc (gameRooms s') = Some room) /\
  (forall t m, In (t, m) out ->
     exists rc room room', Map_get rc (gameRooms s) = Some room /\
       (exists p, In p (players room) /\ id p = c) /\ t = io_to rc /\
       Map_get rc (gameRooms s') = Some room' /\ players room' <> [] /\
       (m = playerDisconnected c \/ m = playersUpdate (players room'))) /\
  ((forall rc room, Map_get rc (gameRooms s) = Some room ->
      forall q, In q (players room) -> id q <> c) ->
   gameRooms s' = gameRooms s /\ out = []).
Proof.
  intros Hwf. cbn zeta.
  change (step s c disconnect)
    with (on_disconnect (mkServer (gameRooms s) (leaveAll c (groups s))) c).
  rewrite on_disconnect_sweep by exact Hwf. cbn [fst snd gameRooms groups].
  split; [|split; [|split]].
  - intros rc room l1 p l2 Hg Hp Hid Hl1.
    pose proof (findIndex_first c l1 l2 p Hid Hl1) as Hf. rewrite <- Hp in Hf.
    pose proof (splice1_middle l1 l2 p) as Hs. rewrite <- Hp in Hs.
    assert (Hdel : l1 ++ l2 = [] ->
              Map_get rc (fst (sweep c (gameRooms s))) = None).
    { intros He. eapply sweep_get_deleted; eauto. congruence. }
    assert (Hkept : l1 ++ l2 <> [] ->
              Map_get rc (fst (sweep c (gameRooms s))) =
                Some (set_players room (l1 ++ l2)) /\
              In (io_to rc, playersUpdate (l1 ++ l2))
                 (snd (sweep c (gameRooms s))) /\
              In (io_to rc, playerDisconnected c)
                 (snd (sweep c (gameRooms s)))).
    { intros Hne. rewrite <- Hs. apply sweep_get_kept; congruence. }
    split; [|split].
    + intros Hl2 room' Hg' q Hq.
      assert (Hcase : l1 ++ l2 = [] \/ l1 ++ l2 <> [])
        by (destruct (l1 ++ l2); [left | right]; congruence).
      destruct Hcase as [He|Hne].
      * rewrite Hdel in Hg' by exact He. discriminate.
      * destruct (Hkept Hne) as (Hk & _).
        rewrite Hk in Hg'. injection Hg' as <-.
        apply in_app_or in Hq. destruct Hq; auto.
    + exact Hdel.
    + intros Hne. destruct (Hkept Hne) as (H1 & H2 & H3).
      repeat split; auto.
      simpl. rewrite members_leaveAll. tauto.
  - intros rc room Hg Hno. apply sweep_get_absent; [assumption|].
    now apply findIndex_None.
  - intros t m Hin. apply sweep_emissions_kept in Hin.
    destruct Hin as (rc & room & i & Hin & Hf & Hne & -> & Hm).
    assert (Hg : Map_get rc (gameRooms s) = Some room)
      by now apply Map_wf_In_get.
    destruct (sweep_get_kept c _ _ _ _ Hg Hf Hne) as (Hg' & _).
    exists rc, room, (set_players room (splice1 i (players room))).
    split; [exact Hg|]. split.
    { apply findIndex_Some in Hf.
      destruct Hf as (l1 & p & l2 & Hp & Hid & _). exists p.
      split; [|assumption]. rewrite Hp. apply in_elt. }
    split; [reflexivity|]. split; [exact Hg'|]. split; [exact Hne|].
    simpl. tauto.
  - intros Hno. rewrite sweep_nobody; [auto|].
    intros rc room Hin. apply findIndex_None. apply (Hno rc).
    now apply Map_wf_In_get.
Qed.

(** C4. The disconnect does not always remove the socket from a room: it
    takes out one entry, the first.  When [c] has a second entry [q] in
    the room (it has joined a room it was already in), the room is still
    registered after [c]'s disconnect, [q] is still among its players,
    and the [playersUpdate] sent to the room still lists [q]. *)
Theorem disconnect_keeps_second_entry (rc : string) (room : Room)
    (l1 l2 : list Player) (p q : Player) :
  Map_wf (gameRooms s) ->
  Map_get rc (gameRooms s) = Some room ->
  players room = l1 ++ p :: l2 -> id p = c ->
  (forall x, In x l1 -> id x <> c) ->
  In q l2 -> id q = c ->
  exists room',
    Map_get rc (gameRooms (fst (step s c disconnect))) = Some room' /\
    players room' = l1 ++ l2 /\
    In q (players room') /\ id q = c /\
    In (io_to rc, playersUpdate (players room'))
       (snd (step s c disconnect)).
Proof.
  intros Hwf Hg Hp Hid Hl1 Hq Hidq.
  change (step s c disconnect)
    with (on_disconnect (mkServer (gameRooms s) (leaveAll c (groups s))) c).
  rewrite on_disconnect_sweep by exact Hwf. cbn [fst snd gameRooms groups].
  pose proof (findIndex_first c l1 l2 p Hid Hl1) as Hf. rewrite <- Hp in Hf.
  pose proof (splice1_middle l1 l2 p) as Hs. rewrite <- Hp in Hs.
  destruct (sweep_get_kept c (gameRooms s) rc room _ Hg Hf) as (H1 & H2 & _).
  { rewrite Hs. intros He. apply app_eq_nil in He. destruct He as [_ ->].
    destruct Hq. }
  rewrite Hs in H1, H2.
  exists (set_players room (l1 ++ l2)). simpl.
  repeat split; auto. apply in_or_app. now right.
Qed.

End Disconnect.

(** ** Invariants of the reachable states *)

Section Invariants.

Lemma run_invariant (I : Server -> Prop) :
  (forall s c ev, I s -> I (fst (step s c ev))) ->
  forall evs s, I s -> I (fst (run s evs)).
Proof.
  intros Hstep. induction evs as [|[c ev] evs IH]; intros s Hs; simpl; auto.
  specialize (Hstep s c ev Hs). destruct (step s c ev) as [s1 out1].
  specialize (IH s1 Hstep). destruct (run s1 evs) as [s2 out2]. exact IH.
Qed.

Lemma run_app (evs1 evs2 : list (SocketId * Event)) (s : Server) :
  fst (run s (evs1 ++ evs2)) = fst (run (fst (run s evs1)) evs2).
Proof.
  revert s. induction evs1 as [|[c ev] evs1 IH]; intros s; simpl; auto.
  destruct (step s c ev) as [s1 out1]. specialize (IH s1).
  destruct (run s1 (evs1 ++ evs2)) as [s2 out2].
  destruct (run s1 evs1) as [s3 out3]. simpl in *. exact IH.
Qed.

Lemma reachable_run (s : Server) (evs : list (SocketId * Event)) :
  reachable s -> reachable (fst (run s evs)).
Proof.
  intros [evs0 <-]. exists (evs0 ++ evs). apply run_app.
Qed.

(** What holds of the registry while the loop of [on_disconnect] runs. *)
Lemma fold_disconnect_inv (I : RoomMap -> Prop) (c : SocketId)
    (todo : RoomMap) (acc : RoomMap * list Emission) :
  I (fst acc) ->
  (forall rc room i m, In (rc, room) todo ->
     findIndex c (players room) = Some i -> I m ->
     I (Map_delete rc m) /\
     I (Map_set rc (set_players room (splice1 i (players room))) m)) ->
  I (fst (fold_left (disconnect_visit c) todo acc)).
Proof.
  revert acc. induction todo as [|[rc room] todo IH]; intros acc Hacc H; simpl.
  - exact Hacc.
  - apply IH; [|intros; eapply H; simpl; eauto].
    destruct (findIndex c (players room)) as [i|] eqn:Ef; [|exact Hacc].
    destruct (H rc room i (fst acc)) as [Hd Hs]; simpl; auto.
    destruct (List.length (splice1 i (players room)) =? 0); assumption.
Qed.

Lemma step_wf (s : Server) (c : SocketId) (ev : Event) :
  Map_wf (gameRooms s) -> Map_wf (gameRooms (fst (step s c ev))).
Proof.
  intros Hwf. destruct ev as [rnd nm|rc nm|rc|rc g|rc a d|]; simpl.
  - now apply Map_wf_set.
  - unfold on_joinRoom. destruct (Map_get rc (gameRooms s)) as [room|]; auto.
    destruct (started room); auto.
    destruct (5 <=? List.length (players room)); simpl; auto.
    now apply Map_wf_set.
  - unfold on_playerReady. destruct (Map_get rc (gameRooms s)) as [room|]; auto.
    destruct (find (has_id c) (players room)); auto.
    match goal with |- context [if ?b then _ else _] => destruct b end;
      simpl; now apply Map_wf_set.
  - unfold on_gameStateUpdate.
    destruct (Map_get rc (gameRooms s)) as [room|]; simpl; auto.
    now apply Map_wf_set.
  - exact Hwf.
  - apply fold_disconnect_inv; [exact Hwf|].
    intros rc room i m _ _ Hm. split.
    + now apply Map_wf_delete.
    + now apply Map_wf_set.
Qed.

Lemma reachable_wf (s : Server) : reachable s -> Map_wf (gameRooms s).
Proof.
  intros [evs <-]. apply (run_invariant (fun s => Map_wf (gameRooms s))).
  - apply step_wf.
  - constructor.
Qed.

Lemma step_capacity (s : Server) (c : SocketId) (ev : Event) :
  Forall within_capacity (gameRooms s) ->
  Forall within_capacity (gameRooms (fst (step s c ev))).
Proof.
  intros Hcap.
  assert (Hroom : forall rc room, Map_get rc (gameRooms s) = Some room ->
                    List.length (players room) <= 5).
  { intros rc room Hg. apply Map_get_In in Hg.
    rewrite Forall_forall in Hcap. apply (Hcap _ Hg). }
  destruct ev as [rnd nm|rc nm|rc|rc g|rc a d|]; simpl.
  - apply Forall_Map_set; [assumption|]. unfold within_capacity. simpl. lia.
  - unfold on_joinRoom.
    destruct (Map_get rc (gameRooms s)) as [room|] eqn:Hg; auto.
    destruct (started room); auto.
    destruct (5 <=? List.length (players room)) eqn:El; simpl; auto.
    apply Forall_Map_set; [assumption|]. apply Nat.leb_gt in El.
    unfold within_capacity. simpl. rewrite length_app. simpl. lia.
  - unfold on_playerReady.
    destruct (Map_get rc (gameRooms s)) as [room|] eqn:Hg; auto.
    destruct (find (has_id c) (players room)); auto.
    specialize (Hroom rc room Hg).
    match goal with |- context [if ?b then _ else _] => destruct b end;
      simpl; (apply Forall_Map_set; [assumption|]);
      unfold within_capacity; simpl; now rewrite mark_ready_length.
  - unfold on_gameStateUpdate.
    destruct (Map_get rc (gameRooms s)) as [room|] eqn:Hg; simpl; auto.
    apply Forall_Map_set; [assumption|]. unfold within_capacity. simpl.
    eauto.
  - exact Hcap.
  - apply fold_disconnect_inv; [exact Hcap|].
    intros rc room i m Hin _ Hm. split.
    + now apply Forall_Map_delete.
    + apply Forall_Map_set; [assumption|]. unfold within_capacity. simpl.
      pose proof (splice1_length i (players room)).
      rewrite Forall_forall in Hcap. specialize (Hcap _ Hin).
      unfold within_capacity in Hcap. simpl in Hcap. lia.
Qed.

(** C5. After any sequence of createRoom, joinRoom, playerReady,
    gameStateUpdate, playerAction and disconnect events from the empty
    registry, every registered room has at most five players. *)
Theorem room_capacity (evs : list (SocketId * Event)) (rc : string)
    (room : Room) :
  Map_get rc (gameRooms (fst (run init evs))) = Some room ->
  List.length (players room) <= 5.
Proof.
  intros Hg. apply Map_get_In in Hg.
  assert (H : Forall within_capacity (gameRooms (fst (run init evs)))).
  { apply (run_invariant (fun s => Forall within_capacity (gameRooms s))).
    - apply step_capacity.
    - constructor. }
  rewrite Forall_forall in H. apply (H _ Hg).
Qed.

End Invariants.

(** ** The ready flag *)

Section ReadyFlag.

Lemma same_player_ready_refl (p : Player) : same_player_ready p p.
Proof. unfold same_player_ready. auto. Qed.

(** [track] loses a player object only when its room is replaced by a
    new one or its own entry is the one a disconnect removes. *)
Lemma track_None (s : Server) (c : SocketId) (ev : Event) (rc : string)
    (i : nat) :
  track s c ev rc i = None <->
  (exists rnd nm, ev = createRoom rnd nm /\ generateRoomCode rnd = rc) \/
  (ev = disconnect /\ exists room, Map_get rc (gameRooms s) = Some room /\
                                   findIndex c (players room) = Some i).
Proof.
  split.
  - destruct ev as [rnd nm|rc0 nm|rc0|rc0 g|rc0 a d|]; simpl; try discriminate.
    + destruct (String.eqb_spec (generateRoomCode rnd) rc); [|discriminate].
      intros _. left. eauto.
    + destruct (Map_get rc (gameRooms s)) as [room|] eqn:Hg; [|discriminate].
      destruct (findIndex c (players room)) as [k|] eqn:Hf; [|discriminate].
      destruct (Nat.eqb_spec i k) as [->|Hne].
      * intros _. right. split; [reflexivity|]. exists room. auto.
      * destruct (k <? i); discriminate.
  - intros [(rnd & nm & -> & <-)|(-> & room & Hg & Hf)]; simpl.
    + now rewrite String.eqb_refl.
    + now rewrite Hg, Hf, Nat.eqb_refl.
Qed.

(** One event: a player object that [track] follows to index [j] is
    there in the room afterwards, and no event clears its flag. *)
Lemma track_step (s : Server) (c : SocketId) (ev : Event) (rc : string)
    (i j : nat) (room : Room) (p : Player) :
  Map_wf (gameRooms s) ->
  Map_get rc (gameRooms s) = Some room ->
  nth_error (players room) i = Some p ->
  track s c ev rc i = Some j ->
  exists room' p',
    Map_get rc (gameRooms (fst (step s c ev))) = Some room' /\
    nth_error (players room') j = Some p' /\ same_player_ready p p'.
Proof.
  intros Hwf Hg Hn Ht.
  assert (Hsame : exists room' p', Map_get rc (gameRooms s) = Some room' /\
            nth_error (players room') i = Some p' /\ same_player_ready p p').
  { exists room, p. auto using same_player_ready_refl. }
  destruct ev as [rnd nm|rc0 nm|rc0|rc0 g|rc0 a d|]; simpl in Ht.
  - destruct (String.eqb (generateRoomCode rnd) rc) eqn:E; [discriminate|].
    injection Ht as <-. simpl. rewrite Map_get_set_cases, E. exact Hsame.
  - injection Ht as <-. simpl. unfold on_joinRoom.
    destruct (Map_get rc0 (gameRooms s)) as [room0|] eqn:Hg0; auto.
    destruct (started room0); auto.
    destruct (5 <=? List.length (players room0)); auto.
    simpl. rewrite Map_get_set_cases.
    destruct (String.eqb_spec rc0 rc) as [->|Hne]; [|exact Hsame].
    rewrite Hg in Hg0. injection Hg0 as <-.
    eexists. exists p. split; [reflexivity|]. simpl.
    split; [|apply same_player_ready_refl].
    rewrite nth_error_app1; [assumption|]. apply nth_error_Some. congruence.
  - injection Ht as <-.
    change (step s c (playerReady rc0)) with (on_playerReady s c rc0).
    destruct (on_playerReady_cases s c rc0)
      as [[-> _]|(room0 & Hg0 & _ & [(_ & _ & ->)|(_ & ->)])];
      [exact Hsame | |]; simpl; rewrite Map_get_set_cases;
      (destruct (String.eqb_spec rc0 rc) as [->|Hne]; [|exact Hsame]);
      rewrite Hg in Hg0; injection Hg0 as <-;
      destruct (nth_error_mark_ready c _ _ _ Hn) as (p' & Hp' & Hs);
      eexists; exists p'; (split; [reflexivity|]); split; assumption.
  - injection Ht as <-. simpl. unfold on_gameStateUpdate.
    destruct (Map_get rc0 (gameRooms s)) as [room0|] eqn:Hg0; auto.
    simpl. rewrite Map_get_set_cases.
    destruct (String.eqb_spec rc0 rc) as [->|Hne]; [|exact Hsame].
    rewrite Hg in Hg0. injection Hg0 as <-.
    eexists. exists p. split; [reflexivity|].
    split; [assumption | apply same_player_ready_refl].
  - injection Ht as <-. exact Hsame.
  - change (step s c disconnect)
      with (on_disconnect (mkServer (gameRooms s) (leaveAll c (groups s))) c).
    rewrite on_disconnect_sweep by exact Hwf. cbn [fst gameRooms].
    rewrite Hg in Ht.
    destruct (findIndex c (players room)) as [k|] eqn:Ef.
    + destruct (i =? k) eqn:Eik; [discriminate|]. apply Nat.eqb_neq in Eik.
      pose proof (nth_error_splice1 k i (players room) Eik) as Hsp.
      assert (Hj : j = if k <? i then i - 1 else i)
        by (destruct (k <? i); congruence).
      rewrite <- Hj, Hn in Hsp.
      destruct (sweep_get_kept c _ _ _ _ Hg Ef) as (H1 & _).
      { intros He. rewrite He in Hsp. destruct j; discriminate. }
      eexists. exists p. split; [exact H1|].
      split; [exact Hsp | apply same_player_ready_refl].
    + injection Ht as <-. exists room, p.
      split; [now apply sweep_get_absent|].
      split; [assumption | apply same_player_ready_refl].
Qed.

(** C10. From any reachable state and along any sequence of events, a
    player whose ready flag is true keeps it true for as long as that
    player object stays in its room: wherever [track_run] finds it
    afterwards, it has the same id and name and [ready = true]. *)
Theorem ready_stays_true (s : Server) (evs : list (SocketId * Event))
    (rc : string) (i j : nat) (room : Room) (p : Player) :
  reachable s ->
  Map_get rc (gameRooms s) = Some room ->
  nth_error (players room) i = Some p ->
  ready p = true ->
  track_run s evs rc i = Some j ->
  exists room' p',
    Map_get rc (gameRooms (fst (run s evs))) = Some room' /\
    nth_error (players room') j = Some p' /\
    id p' = id p /\ name p' = name p /\ ready p' = true.
Proof.
  revert s i room p. induction evs as [|[c ev] evs IH];
    intros s i room p Hreach Hg Hn Hr Ht; simpl in *.
  - injection Ht as <-. exists room, p. auto.
  - destruct (track s c ev rc i) as [k|] eqn:Ek; [|discriminate].
    destruct (track_step s c ev rc i k room p (reachable_wf s Hreach) Hg Hn Ek)
      as (room1 & p1 & Hg1 & Hn1 & Hid & Hnm & Hr1).
    assert (Hreach1 : reachable (fst (step s c ev))).
    { apply (reachable_run s [(c, ev)]) in Hreach. simpl in Hreach.
      destruct (step s c ev). exact Hreach. }
    destruct (step s c ev) as [s1 out1]. simpl in *.
    destruct (IH s1 k room1 p1 Hreach1 Hg1 Hn1 (Hr1 Hr) Ht)
      as (room' & p' & Hg' & Hn' & Hid' & Hnm' & Hr').
    destruct (run s1 evs) as [s2 out2]. simpl in *.
    exists room', p'. repeat split; auto; congruence.
Qed.

End ReadyFlag.

(** ** The sample runs, checked against the theorems *)

Section Samples.

Import Sample.

Example sample_codes :
  generateRoomCode rnd1 = code1 /\ generateRoomCode rnd2 = code2.
Proof. split; vm_compute; reflexivity. Qed.

(** C1 (as stated) fails: Alice and Bob get ready and [gameStart] is sent
    to their room, which is now started; Alice sends playerReady once
    more and [gameStart] is sent to the same room again, twice in all. *)
Lemma gameStart_sent_again :
  (exists room, Map_get code1 (gameRooms (after tr_started)) = Some room /\
                started room = true) /\
  gameStart_count code1 (snd (run init tr_started)) = 1 /\
  snd (step (after tr_started) "A" (playerReady code1)) =
    [(io_to code1, playersUpdate [alice true; bob true]);
     (io_to code1, gameStart [alice true; bob true])] /\
  gameStart_count code1
    (snd (run init (tr_started ++ [("A", playerReady code1)]))) = 2.
Proof.
  split; [eexists; split; vm_compute; reflexivity|].
  repeat split; vm_compute; reflexivity.
Qed.

(** C1 (as amended), on Bob's playerReady in the lobby where Alice is
    ready: the condition holds afterwards, so [gameStart] is sent. *)
Lemma gameStart_iff_witness :
  In (io_to code1, gameStart [alice true; bob true])
     (snd (step (after (tr_lobby ++ [("A", playerReady code1)])) "B"
             (playerReady code1))).
Proof.
  apply (proj1 (gameStart_iff
                  (after (tr_lobby ++ [("A", playerReady code1)])) "B"
                  (playerReady code1))).
  exists code1, (mkRoom code1 [alice true; bob false] None false),
    (mkRoom code1 [alice true; bob true] None true).
  split; [reflexivity|]. split; [reflexivity|].
  split; [vm_compute; reflexivity|].
  split; [exists (bob false); split; [right; left|]; reflexivity|].
  split; [vm_compute; reflexivity|]. split; [reflexivity|].
  split; [simpl; lia|].
  intros q [<-|[<-|[]]]; reflexivity.
Defined.

(** C2 on four joins: an unknown code; a started room with two players;
    a full room in which nobody is ready; a lobby with room left. *)
Lemma joinRoom_failures_witness :
  step init "B" (joinRoom "NOROOM" "Bob") =
    (init, [(to_socket "B", error "Room not found")]) /\
  step (after tr_started) "C" (joinRoom code1 "Carol") =
    (after tr_started, [(to_socket "C", error "Game already started")]) /\
  step (after tr_full) "F" (joinRoom code1 "Frank") =
    (after tr_full, [(to_socket "F", error "Room is full")]) /\
  fst (step (after tr_lobby) "C" (joinRoom code1 "Carol")) <> after tr_lobby.
Proof.
  split; [|split; [|split]].
  - apply (proj1 (joinRoom_failures init "B" "NOROOM" "Bob")). reflexivity.
  - apply (proj1 (proj2 (joinRoom_failures (after tr_started) "C" code1 "Carol"))
             (mkRoom code1 [alice true; bob true] None true));
      vm_compute; reflexivity.
  - apply (proj1 (proj2 (proj2
             (joinRoom_failures (after tr_full) "F" code1 "Frank")))
             (mkRoom code1 [alice false; bob false;
                            mkPlayer "C" "Carol" false;
                            mkPlayer "D" "Dave" false;
                            mkPlayer "E" "Erin" false] None false));
      [vm_compute; reflexivity | reflexivity | simpl; lia].
  - apply (proj2 (proj2 (proj2
             (joinRoom_failures (after tr_lobby) "C" code1 "Carol")))
             (mkRoom code1 [alice false; bob false] None false));
      [vm_compute; reflexivity | reflexivity | simpl; lia].
Defined.

(** C3 on Bob joining the room Alice has just opened. *)
Lemma joinRoom_success_witness :
  Map_get code1 (gameRooms (after tr_lobby)) =
    Some (mkRoom code1 [alice false; bob false] None false) /\
  snd (step (after [("A", createRoom rnd1 "Alice")]) "B"
         (joinRoom code1 "Bob")) =
    [(to_socket "B", roomJoined code1 "B");
     (io_to code1, playersUpdate [alice false; bob false])] /\
  In "B" (recipients (groups (after tr_lobby)) (io_to code1)).
Proof.
  destruct (joinRoom_success (after [("A", createRoom rnd1 "Alice")]) "B"
              code1 "Bob" (mkRoom code1 [alice false] None false))
    as (H1 & _ & H3 & _ & H5 & _);
    [vm_compute; reflexivity | reflexivity | simpl; lia |].
  split; [exact H1|]. split; [exact H3|]. apply H5. now right.
Defined.

(** C6 on Bob's playerReady in the lobby: Bob's entry is the second. *)
Lemma playerReady_effect_witness :
  snd (step (after tr_lobby) "B" (playerReady code1)) =
    [(io_to code1, playersUpdate [alice false; bob true])] \/
  snd (step (after tr_lobby) "B" (playerReady code1)) =
    [(io_to code1, playersUpdate [alice false; bob true]);
     (io_to code1, gameStart [alice false; bob true])].
Proof.
  destruct (proj2 (proj2 (playerReady_effect (after tr_lobby) "B" code1))
              (mkRoom code1 [alice false; bob false] None false)
              [alice false] (bob false) [])
    as (_ & _ & _ & H & _);
    [vm_compute; reflexivity | reflexivity | reflexivity
    | intros q [<-|[]]; discriminate |].
  exact H.
Defined.

(** C9 on a gameStateUpdate from Zoe, who is in no room and in no group. *)
Lemma gameStateUpdate_effect_witness :
  Map_get code1
    (gameRooms (fst (step (after tr_lobby) "Z" (gameStateUpdate code1 "{}")))) =
  Some (mkRoom code1 [alice false; bob false] (Some "{}") false).
Proof.
  destruct (proj2 (gameStateUpdate_effect (after tr_lobby) "Z" code1 "{}")
              (mkRoom code1 [alice false; bob false] None false))
    as (H & _); [vm_compute; reflexivity|].
  exact H.
Defined.

(** X20 on Bob's disconnect while he is the second player of Alice's
    room and the only player of his own: the first keeps Alice and is
    told, the second is deleted. *)
Lemma disconnect_effect_witness :
  Map_get code1 (gameRooms (fst (step (after tr_two_rooms) "B" disconnect))) =
    Some (mkRoom code1 [alice false] None false) /\
  In (io_to code1, playersUpdate [alice false])
     (snd (step (after tr_two_rooms) "B" disconnect)) /\
  In (io_to code1, playerDisconnected "B")
     (snd (step (after tr_two_rooms) "B" disconnect)) /\
  Map_get code2 (gameRooms (fst (step (after tr_two_rooms) "B" disconnect))) =
    None.
Proof.
  assert (Hwf : Map_wf (gameRooms (after tr_two_rooms))).
  { vm_compute. repeat constructor; simpl; intuition discriminate. }
  destruct (disconnect_effect (after tr_two_rooms) "B" Hwf) as (H & _).
  destruct (H code1 (mkRoom code1 [alice false; bob false] None false)
              [alice false] (bob false) [])
    as (_ & _ & H1);
    [vm_compute; reflexivity | reflexivity | reflexivity
    | intros q [<-|[]]; discriminate |].
  destruct H1 as (Ha & Hb & Hc & _); [discriminate|].
  destruct (H code2 (mkRoom code2 [bob false] None false) [] (bob false) [])
    as (_ & H2 & _);
    [vm_compute; reflexivity | reflexivity | reflexivity | intros q [] |].
  split; [exact Ha|]. split; [exact Hb|]. split; [exact Hc|].
  apply H2. reflexivity.
Defined.

(** C4 on Alice, who has joined her own room and then disconnects: her
    second entry stays, and so does the room. *)
Lemma disconnect_keeps_second_entry_witness :
  exists room',
    Map_get code1
      (gameRooms (fst (step (after [("A", createRoom rnd1 "Alice");
                                    ("A", joinRoom code1 "Alice")]) "A"
                         disconnect))) = Some room' /\
    players room' = [alice false] /\
    In (alice false) (players room') /\ id (alice false) = "A" /\
    In (io_to code1, playersUpdate (players room'))
       (snd (step (after [("A", createRoom rnd1 "Alice");
                          ("A", joinRoom code1 "Alice")]) "A" disconnect)).
Proof.
  apply (disconnect_keeps_second_entry
           (after [("A", createRoom rnd1 "Alice");
                   ("A", joinRoom code1 "Alice")]) "A" code1
           (mkRoom code1 [alice false; alice false] None false)
           [] [alice false] (alice false) (alice false)).
  - vm_compute. repeat constructor; simpl; intuition discriminate.
  - vm_compute. reflexivity.
  - reflexivity.
  - reflexivity.
  - intros x [].
  - now left.
  - reflexivity.
Defined.

(** C5 on the full room after a sixth player has tried to join. *)
Lemma room_capacity_witness :
  List.length
    (players (mkRoom code1 [alice false; bob false;
                            mkPlayer "C" "Carol" false;
                            mkPlayer "D" "Dave" false;
                            mkPlayer "E" "Erin" false] None false)) <= 5.
Proof.
  apply (room_capacity (tr_full ++ [("F", joinRoom code1 "Frank")]) code1).
  vm_compute. reflexivity.
Defined.

(** C10 on Bob, ready at index 1: Alice leaves, Carol joins and gets
    ready, and Bob, now at index 0, is still ready. *)
Lemma ready_stays_true_witness :
  exists room' p',
    Map_get code1 (gameRooms (fst (run (after tr_bob_ready) tr_later))) =
      Some room' /\
    nth_error (players room') 0 = Some p' /\
    id p' = "B" /\ name p' = "Bob" /\ ready p' = true.
Proof.
  apply (ready_stays_true (after tr_bob_ready) tr_later code1 1 0
           (mkRoom code1 [alice false; bob true] None false) (bob true)).
  - exists tr_bob_ready. reflexivity.
  - vm_compute. reflexivity.
  - reflexivity.
  - reflexivity.
  - vm_compute. reflexivity.
Defined.

(** A socket that joins the room it is already in gets a second entry;
    its disconnect removes the first one only, so the room stays
    registered with the other. *)
Example double_join_then_disconnect :
  let s := after [("A", createRoom rnd1 "Alice"); ("A", joinRoom code1 "Alice")] in
  Map_get code1 (gameRooms s) =
    Some (mkRoom code1 [alice false; alice false] None false) /\
  Map_get code1 (gameRooms (fst (step s "A" disconnect))) =
    Some (mkRoom code1 [alice false] None false).
Proof. split; vm_compute; reflexivity. Qed.

End Samples.

(** * Further properties of the handlers *)

(** ** More lemmas on the registry and the loop of [on_disconnect] *)

Section MoreFacts.

Lemma Map_set_set (k : string) (v1 v2 : Room) (m : RoomMap) :
  Map_set k v2 (Map_set k v1 m) = Map_set k v2 m.
Proof.
  induction m as [|[k' v'] m IH]; simpl.
  - now rewrite String.eqb_refl.
  - destruct (String.eqb k' k) eqn:E; simpl.
    + now rewrite String.eqb_refl.
    + now rewrite E, IH.
Qed.

Lemma Map_keys_set_present (k : string) (v v' : Room) (m : RoomMap) :
  Map_get k m = Some v -> Map_keys (Map_set k v' m) = Map_keys m.
Proof.
  intros Hg. rewrite Map_keys_set.
  destruct (in_dec string_dec k (Map_keys m)) as [|Hn]; [reflexivity|].
  apply Map_get_None_keys in Hn. congruence.
Qed.

Lemma Map_get_keys (k : string) (m : RoomMap) :
  Map_get k m <> None <-> In k (Map_keys m).
Proof.
  pose proof (Map_get_None_keys k m) as H.
  destruct (Map_get k m); split; intros H1.
  - destruct (in_dec string_dec k (Map_keys m)) as [|Hn]; [assumption|].
    apply H in Hn. discriminate.
  - discriminate.
  - congruence.
  - exfalso. apply (proj1 H); auto.
Qed.

(** The loop of [on_disconnect], with a different step for a deleted and
    for a kept room. *)
Lemma fold_disconnect_cond_inv (I : RoomMap -> Prop) (c : SocketId)
    (todo : RoomMap) (acc : RoomMap * list Emission) :
  I (fst acc) ->
  (forall rc room i m, In (rc, room) todo ->
     findIndex c (players room) = Some i -> I m ->
     (splice1 i (players room) = [] -> I (Map_delete rc m)) /\
     (splice1 i (players room) <> [] ->
      I (Map_set rc (set_players room (splice1 i (players room))) m))) ->
  I (fst (fold_left (disconnect_visit c) todo acc)).
Proof.
  revert acc. induction todo as [|[rc room] todo IH]; intros acc Hacc H; simpl.
  - exact Hacc.
  - apply IH; [|intros; eapply H; simpl; eauto].
    destruct (findIndex c (players room)) as [i|] eqn:Ef; [|exact Hacc].
    destruct (H rc room i (fst acc)) as [Hd Hs]; simpl; auto.
    destruct (splice1 i (players room)) as [|x l]; simpl.
    + now apply Hd.
    + apply Hs. discriminate.
Qed.

(** The loop sends the two notices and nothing else. *)
Lemma fold_disconnect_emissions (c : SocketId) (todo : RoomMap)
    (acc : RoomMap * list Emission) (t : Target) (m : Message) :
  In (t, m) (snd (fold_left (disconnect_visit c) todo acc)) ->
  In (t, m) (snd acc) \/
  exists rc, t = io_to rc /\
    (m = playerDisconnected c \/ exists ps, m = playersUpdate ps).
Proof.
  revert acc. induction todo as [|[rc room] todo IH]; intros acc; simpl; auto.
  intros H. apply IH in H. destruct H as [H|H]; [|auto].
  destruct (findIndex c (players room)) as [i|]; auto.
  destruct (List.length (splice1 i (players room)) =? 0); simpl in H; auto.
  apply in_app_or in H. destruct H as [H|[H|[H|[]]]]; auto;
    inversion H; subst; right; exists rc; eauto.
Qed.

(** A room registered after the loop was registered before it, and is
    what it was or what the removal of the socket's entry made of it. *)
Lemma sweep_get_Some (c : SocketId) (m : RoomMap) (rc : string)
    (room' : Room) :
  Map_wf m -> Map_get rc (fst (sweep c m)) = Some room' ->
  exists room, Map_get rc m = Some room /\
    ((findIndex c (players room) = None /\ room' = room) \/
     (exists i, findIndex c (players room) = Some i /\
                splice1 i (players room) <> [] /\
                room' = set_players room (splice1 i (players room)))).
Proof.
  intros Hwf Hg'.
  destruct (Map_get rc m) as [room|] eqn:Hg.
  2: { rewrite (sweep_get_None c m rc Hg) in Hg'. discriminate. }
  exists room. split; [reflexivity|].
  destruct (findIndex c (players room)) as [i|] eqn:Ef.
  - right. exists i. split; [reflexivity|].
    destruct (splice1 i (players room)) as [|x l] eqn:Es.
    + rewrite (sweep_get_deleted c m rc room i Hwf Hg Ef Es) in Hg'.
      discriminate.
    + split; [discriminate|].
      destruct (sweep_get_kept c m rc room i Hg Ef) as (H1 & _).
      { rewrite Es. discriminate. }
      rewrite Es in H1. congruence.
  - left. split; [reflexivity|].
    rewrite (sweep_get_absent c m rc room Hg Ef) in Hg'. congruence.
Qed.

Lemma In_splice1 (i : nat) (ps : list Player) (q : Player) :
  In q (splice1 i ps) -> In q ps.
Proof.
  revert i. induction ps as [|p ps IH]; intros [|i]; simpl; auto.
  intros [H|H]; eauto.
Qed.

Lemma In_mark_ready (c : SocketId) (ps : list Player) (q : Player) :
  In q (mark_ready c ps) -> In q ps \/ ready q = true.
Proof.
  induction ps as [|p ps IH]; simpl; auto.
  destruct (has_id c p).
  - intros [<-|H]; auto.
  - intros [H|H]; auto. destruct (IH H); auto.
Qed.

Lemma mark_ready_idem (c : SocketId) (ps : list Player) :
  mark_ready c (mark_ready c ps) = mark_ready c ps.
Proof.
  induction ps as [|p ps IH]; simpl; auto.
  destruct (has_id c p) eqn:E; simpl.
  - unfold has_id in *. simpl. now rewrite E.
  - now rewrite E, IH.
Qed.

Lemma find_mark_ready (c : SocketId) (ps : list Player) :
  find (has_id c) ps <> None -> find (has_id c) (mark_ready c ps) <> None.
Proof.
  induction ps as [|p ps IH]; simpl; auto.
  destruct (has_id c p) eqn:E; simpl.
  - unfold has_id in *. simpl. rewrite E. discriminate.
  - now rewrite E.
Qed.

End MoreFacts.

(** ** The shape of a room code *)

Section RoomCodeShape.

Lemma upper_ascii_idem (a : ascii) : upper_ascii (upper_ascii a) = upper_ascii a.
Proof.
  destruct a as [b0 b1 b2 b3 b4 b5 b6 b7].
  destruct b0, b1, b2, b3, b4, b5, b6, b7; vm_compute; reflexivity.
Qed.

Lemma toUpperCase_idem (s : string) : toUpperCase (toUpperCase s) = toUpperCase s.
Proof.
  induction s as [|a s IH]; simpl; [reflexivity|].
  now rewrite upper_ascii_idem, IH.
Qed.

(** X1. Whatever [Math.random()] returns, the room code made from its
    rendering in radix 36 has six characters when the rendering has six
    fractional digits or more and as many as there are otherwise, all
    of them digits or upper-case letters, and upper-casing it again
    changes nothing. *)
Theorem roomCodeOf_rendering (s : string) :
  rendering s = true ->
  String.length (roomCodeOf s) = Nat.min 6 (String.length s - 2) /\
  string_forallb upper_alnum (roomCodeOf s) = true /\
  toUpperCase (roomCodeOf s) = roomCodeOf s.
Proof.
  intros Hr. split; [apply roomCodeOf_length|].
  split; [now apply roomCodeOf_shape|].
  unfold roomCodeOf. apply toUpperCase_idem.
Qed.

Lemma roomCodeOf_rendering_witness :
  String.length (roomCodeOf "0.4xmvue8k2w") = 6 /\
  string_forallb upper_alnum (roomCodeOf "0.4xmvue8k2w") = true /\
  toUpperCase (roomCodeOf "0.4xmvue8k2w") = roomCodeOf "0.4xmvue8k2w".
Proof. apply (roomCodeOf_rendering "0.4xmvue8k2w"). reflexivity. Defined.

End RoomCodeShape.

(** ** Opening a room and filling it *)

Section Lobby.

Variables (s : Server).

(** X3. When createRoom draws a code under which a room is already
    registered, the new room takes its place: a player of the old room
    other than the caller is no longer a player (its playerReady does
    nothing) although it is still in the group of that code and so
    still receives what is sent to the room. *)
Theorem createRoom_collision (c : SocketId) (rnd : N) (nm : string)
    (old : Room) (p : Player) :
  Map_get (generateRoomCode rnd) (gameRooms s) = Some old ->
  In p (players old) -> id p <> c ->
  In (id p) (members (generateRoomCode rnd) (groups s)) ->
  let rc := generateRoomCode rnd in
  let s' := fst (step s c (createRoom rnd nm)) in
  Map_get rc (gameRooms s') = Some (mkRoom rc [mkPlayer c nm false] None false) /\
  step s' (id p) (playerReady rc) = (s', []) /\
  In (id p) (members rc (groups s')).
Proof.
  intros Hg Hp Hne Hm. cbv zeta. split; [|split].
  - simpl. apply Map_get_set_same.
  - simpl. unfold on_playerReady. simpl. rewrite Map_get_set_same. simpl.
    unfold has_id. simpl.
    destruct (String.eqb_spec c (id p)); [congruence|]. reflexivity.
  - simpl. apply members_join. now left.
Qed.

(** X4. A room that has just been created can be joined under the code
    sent in [roomCreated], whatever the state was before and whoever
    joins: the room then has the creator and the joiner, in this order,
    neither ready, and both are in the group that gets [playersUpdate]. *)
Theorem create_then_join (a b : SocketId) (rnd : N) (na nb : string) :
  let rc := generateRoomCode rnd in
  let s1 := fst (step s a (createRoom rnd na)) in
  let s2 := fst (step s1 b (joinRoom rc nb)) in
  let ps := [mkPlayer a na false; mkPlayer b nb false] in
  snd (step s a (createRoom rnd na)) = [(to_socket a, roomCreated rc a)] /\
  snd (step s1 b (joinRoom rc nb)) =
    [(to_socket b, roomJoined rc b); (io_to rc, playersUpdate ps)] /\
  Map_get rc (gameRooms s2) = Some (mkRoom rc ps None false) /\
  In a (recipients (groups s2) (io_to rc)) /\
  In b (recipients (groups s2) (io_to rc)).
Proof.
  cbv zeta. simpl. unfold on_joinRoom. simpl.
  rewrite Map_get_set_same. simpl.
  split; [reflexivity|]. split; [reflexivity|].
  split; [apply Map_get_set_same|].
  split; apply members_join; [left; apply members_join|]; now right.
Qed.



End Lobby.

Section Handshake.

Variables (s : Server) (a b : SocketId) (rnd : N) (na nb : string).


End Handshake.

(** ** Invariants of the registered rooms *)

Section RoomInvariant.

(** A property of rooms that every way of writing a room keeps. *)
Variable P : string -> Room -> Prop.

Hypothesis P_create : forall c rnd nm,
  P (generateRoomCode rnd)
    (mkRoom (generateRoomCode rnd) [mkPlayer c nm false] None false).
Hypothesis P_join : forall k r c nm,
  P k r -> started r = false ->
  P k (set_players r (players r ++ [mkPlayer c nm false])).
Hypothesis P_ready : forall k r c,
  P k r -> P k (set_players r (mark_ready c (players r))).
Hypothesis P_start : forall k r,
  P k r -> 2 <= List.length (players r) ->
  (forall q, In q (players r) -> ready q = true) -> P k (set_started r).
Hypothesis P_gameState : forall k r g, P k r -> P k (set_gameState r g).
Hypothesis P_splice : forall k r i,
  P k r -> splice1 i (players r) <> [] ->
  P k (set_players r (splice1 i (players r))).

Lemma rooms_all_get (s : Server) (rc : string) (room : Room) :
  rooms_all P s -> Map_get rc (gameRooms s) = Some room -> P rc room.
Proof.
  unfold rooms_all. intros H Hg. apply Map_get_In in Hg.
  rewrite Forall_forall in H. apply (H _ Hg).
Qed.

Lemma rooms_all_step (s : Server) (c : SocketId) (ev : Event) :
  rooms_all P s -> rooms_all P (fst (step s c ev)).
Proof.
  intros Hall. pose proof (rooms_all_get s) as Hroom.
  unfold rooms_all in *.
  destruct ev as [rnd nm|rc nm|rc|rc g|rc a d|]; simpl.
  - apply Forall_Map_set; [assumption | apply P_create].
  - unfold on_joinRoom.
    destruct (Map_get rc (gameRooms s)) as [room|] eqn:Hg; auto.
    destruct (started room) eqn:Hs; auto.
    destruct (5 <=? List.length (players room)); simpl; auto.
    apply Forall_Map_set; [assumption|]. simpl. apply P_join; eauto.
  - unfold on_playerReady.
    destruct (Map_get rc (gameRooms s)) as [room|] eqn:Hg; auto.
    destruct (find (has_id c) (players room)); auto.
    pose proof (P_ready rc room c (Hroom rc room Hall Hg)) as Hr.
    destruct ((2 <=? List.length (mark_ready c (players room)))
              && forallb ready (mark_ready c (players room))) eqn:E; simpl.
    + apply andb_true_iff in E. destruct E as [E1 E2].
      apply Nat.leb_le in E1. rewrite forallb_forall in E2.
      apply Forall_Map_set; [assumption|]. simpl. apply P_start; assumption.
    + apply Forall_Map_set; assumption.
  - unfold on_gameStateUpdate.
    destruct (Map_get rc (gameRooms s)) as [room|] eqn:Hg; simpl; auto.
    apply Forall_Map_set; [assumption|]. simpl. apply P_gameState; eauto.
  - exact Hall.
  - apply fold_disconnect_cond_inv; [exact Hall|].
    intros rc room i m Hin _ Hm. split; intros Hsp.
    + now apply Forall_Map_delete.
    + apply Forall_Map_set; [assumption|]. simpl. apply P_splice; [|assumption].
      rewrite Forall_forall in Hall. apply (Hall _ Hin).
Qed.

Lemma rooms_all_reachable (s : Server) : reachable s -> rooms_all P s.
Proof.
  intros [evs <-]. apply (run_invariant (rooms_all P)).
  - apply rooms_all_step.
  - constructor.
Qed.

End RoomInvariant.

Section RegistryInvariants.

Variables (s : Server) (rc : string) (room : Room).

(** X6. In every reachable state a registered room has at least one
    player: a room is created with one, and the disconnect that takes
    its last player away deletes it. *)
Theorem room_never_empty :
  reachable s -> Map_get rc (gameRooms s) = Some room -> players room <> [].
Proof.
  intros Hr Hg.
  apply (rooms_all_get (fun _ r => players r <> []) s rc room); [|exact Hg].
  apply rooms_all_reachable; try exact Hr; simpl; auto.
  - discriminate.
  - intros _ r c nm _ _. destruct (players r); discriminate.
  - intros _ r c H. destruct (players r) as [|p ps]; [congruence|].
    simpl. destruct (has_id c p); discriminate.
Qed.

(** X7. In every reachable state a room is registered under its own
    code: the [code] field and the key of the registry agree. *)
Theorem room_code_is_key :
  reachable s -> Map_get rc (gameRooms s) = Some room -> code room = rc.
Proof.
  intros Hr Hg.
  apply (rooms_all_get (fun k r => code r = k) s rc room); [|exact Hg].
  apply rooms_all_reachable; try exact Hr; simpl; auto.
Qed.

(** X8. In every reachable state every player of a started room is
    ready: the room starts only when all are, nobody joins it
    afterwards, and no flag is cleared. *)
Theorem started_room_all_ready :
  reachable s -> Map_get rc (gameRooms s) = Some room ->
  started room = true -> forall q, In q (players room) -> ready q = true.
Proof.
  intros Hr Hg.
  apply (rooms_all_get
           (fun _ r => started r = true ->
                       forall q, In q (players r) -> ready q = true)
           s rc room); [|exact Hg].
  apply rooms_all_reachable; try exact Hr; simpl; auto.
  - discriminate.
  - intros _ r c nm _ Hs. congruence.
  - intros _ r c H Hs q Hq. apply In_mark_ready in Hq. destruct Hq; auto.
  - intros _ r i H _ Hs q Hq. apply In_splice1 in Hq. auto.
Qed.

End RegistryInvariants.

(** ** What an event can do to one room *)

Section RoomChange.

Variables (s : Server) (c : SocketId) (ev : Event) (rc : string).

(** Where a room registered after an event comes from. *)
Lemma step_room_inv (room' : Room) :
  Map_wf (gameRooms s) ->
  Map_get rc (gameRooms (fst (step s c ev))) = Some room' ->
  (exists rnd nm, ev = createRoom rnd nm /\ generateRoomCode rnd = rc /\
     room' = mkRoom rc [mkPlayer c nm false] None false) \/
  (exists room, Map_get rc (gameRooms s) = Some room /\
     (room' = room \/
      (exists nm, ev = joinRoom rc nm /\ started room = false /\
         room' = set_players room (players room ++ [mkPlayer c nm false])) \/
      (ev = playerReady rc /\ find (has_id c) (players room) <> None /\
       let ps := mark_ready c (players room) in
       ((2 <= List.length ps /\ (forall q, In q ps -> ready q = true) /\
         room' = set_started (set_players room ps)) \/
        (~ (2 <= List.length ps /\ (forall q, In q ps -> ready q = true)) /\
         room' = set_players room ps))) \/
      (exists g, ev = gameStateUpdate rc g /\ room' = set_gameState room g) \/
      (exists i, ev = disconnect /\ findIndex c (players room) = Some i /\
         splice1 i (players room) <> [] /\
         room' = set_players room (splice1 i (players room))))).
Proof.
  intros Hwf.
  destruct ev as [rnd nm|rc0 nm|rc0|rc0 g|rc0 a d|].
  - simpl. rewrite Map_get_set_cases.
    destruct (String.eqb_spec (generateRoomCode rnd) rc) as [E|E].
    + intros [= <-]. left. exists rnd, nm. rewrite E. auto.
    + intros Hg. right. eauto.
  - simpl. unfold on_joinRoom.
    destruct (Map_get rc0 (gameRooms s)) as [room|] eqn:Hg0;
      [|intros Hg; right; eauto].
    destruct (started room) eqn:Hs; [intros Hg; right; eauto|].
    destruct (5 <=? List.length (players room));
      [intros Hg; right; eauto|].
    simpl. rewrite Map_get_set_cases.
    destruct (String.eqb_spec rc0 rc) as [->|E]; [|intros Hg; right; eauto].
    intros [= <-]. right. exists room. split; [assumption|].
    right. left. eauto.
  - change (step s c (playerReady rc0)) with (on_playerReady s c rc0).
    destruct (on_playerReady_cases s c rc0)
      as [[-> _]|(room & Hg0 & (p & Hp & Hid) & [(H2 & Hall & ->)|(Hn & ->)])];
      [intros Hg; right; eauto | |]; cbn [fst gameRooms];
      rewrite Map_get_set_cases;
      (destruct (String.eqb_spec rc0 rc) as [->|E]; [|intros Hg; right; eauto]);
      intros [= <-]; right; exists room; (split; [assumption|]);
      right; right; left; (split; [reflexivity|]);
      (split; [intros Hf; rewrite find_has_id_None in Hf; exact (Hf p Hp Hid)|]);
      cbv zeta; [left | right]; auto.
  - simpl. unfold on_gameStateUpdate.
    destruct (Map_get rc0 (gameRooms s)) as [room|] eqn:Hg0;
      [|intros Hg; right; eauto].
    simpl. rewrite Map_get_set_cases.
    destruct (String.eqb_spec rc0 rc) as [->|E]; [|intros Hg; right; eauto].
    intros [= <-]. right. exists room. split; [assumption|].
    right. right. right. left. eauto.
  - simpl. intros Hg. right. eauto.
  - change (step s c disconnect)
      with (on_disconnect (mkServer (gameRooms s) (leaveAll c (groups s))) c).
    rewrite on_disconnect_sweep by exact Hwf. cbn [fst gameRooms].
    intros Hg. apply sweep_get_Some in Hg; [|exact Hwf].
    destruct Hg as (room & Hg & [[_ ->]|(i & Hf & Hne & ->)]);
      right; exists room; (split; [assumption|]); [now left|].
    right. right. right. right. exists i. auto.
Qed.

(** What has happened when a registered room is registered no more. *)
Lemma step_room_deleted (room : Room) :
  Map_wf (gameRooms s) ->
  Map_get rc (gameRooms s) = Some room ->
  Map_get rc (gameRooms (fst (step s c ev))) = None ->
  ev = disconnect /\ exists p, players room = [p] /\ id p = c.
Proof.
  intros Hwf Hg.
  destruct ev as [rnd nm|rc0 nm|rc0|rc0 g|rc0 a d|].
  - simpl. rewrite Map_get_set_cases.
    destruct (String.eqb (generateRoomCode rnd) rc); congruence.
  - simpl. unfold on_joinRoom.
    destruct (Map_get rc0 (gameRooms s)) as [room0|]; [|simpl; congruence].
    destruct (started room0); [simpl; congruence|].
    destruct (5 <=? List.length (players room0)); [simpl; congruence|].
    simpl. rewrite Map_get_set_cases.
    destruct (String.eqb rc0 rc); congruence.
  - change (step s c (playerReady rc0)) with (on_playerReady s c rc0).
    destruct (on_playerReady_cases s c rc0)
      as [[-> _]|(room0 & _ & _ & [(_ & _ & ->)|(_ & ->)])];
      [simpl; congruence | |]; cbn [fst gameRooms];
      rewrite Map_get_set_cases; destruct (String.eqb rc0 rc); congruence.
  - simpl. unfold on_gameStateUpdate.
    destruct (Map_get rc0 (gameRooms s)) as [room0|]; [|simpl; congruence].
    simpl. rewrite Map_get_set_cases.
    destruct (String.eqb rc0 rc); congruence.
  - simpl. congruence.
  - change (step s c disconnect)
      with (on_disconnect (mkServer (gameRooms s) (leaveAll c (groups s))) c).
    rewrite on_disconnect_sweep by exact Hwf. cbn [fst gameRooms].
    intros Hn. split; [reflexivity|].
    destruct (findIndex c (players room)) as [i|] eqn:Ef.
    + destruct (findIndex_Some c _ _ Ef) as (l1 & p & l2 & Hp & Hid & _ & _ & Hs).
      destruct (l1 ++ l2) as [|x l] eqn:El.
      * apply app_eq_nil in El. destruct El as [-> ->]. eauto.
      * destruct (sweep_get_kept c _ _ _ _ Hg Ef) as (H1 & _);
          [rewrite Hs; discriminate | congruence].
    + rewrite (sweep_get_absent c _ _ _ Hg Ef) in Hn. discriminate.
Qed.

End RoomChange.

(** ** The life of a room *)

Section RoomLife.

Variables (s : Server) (c : SocketId) (ev : Event) (rc : string).

(** X9. A room that has not started is started after an event only when
    the event is a playerReady for it from one of its players, after
    which it has at least two players, all ready; [gameStart] with its
    players is then sent to its group. *)
Theorem started_only_by_ready (room room' : Room) :
  Map_wf (gameRooms s) ->
  Map_get rc (gameRooms s) = Some room -> started room = false ->
  Map_get rc (gameRooms (fst (step s c ev))) = Some room' ->
  started room' = true ->
  ev = playerReady rc /\
  (exists p, In p (players room) /\ id p = c) /\
  2 <= List.length (players room') /\
  (forall q, In q (players room') -> ready q = true) /\
  In (io_to rc, gameStart (players room')) (snd (step s c ev)).
Proof.
  intros Hwf Hg Hs Hg' Hs'.
  destruct (step_room_inv s c ev rc room' Hwf Hg')
    as [(rnd & nm & _ & _ & ->)|(room0 & Hg0 & H)]; [discriminate|].
  rewrite Hg in Hg0. injection Hg0 as <-.
  destruct H as [->|[(nm & _ & _ & ->)|[(Hev & Hf & H)|[(g & _ & ->)|(i & _ & _ & _ & ->)]]]];
    try (simpl in Hs'; congruence).
  cbv zeta in H.
  destruct H as [(H2 & Hall & ->)|(_ & ->)]; [|simpl in Hs'; congruence].
  assert (Hp : exists p, In p (players room) /\ id p = c).
  { destruct (find (has_id c) (players room)) as [p|] eqn:Ef; [|congruence].
    apply find_some in Ef. exists p. split; [tauto|].
    now apply has_id_true. }
  simpl. repeat split; auto.
  apply (proj1 (gameStart_emitted s c ev)).
  exists rc, room, (set_started (set_players room (mark_ready c (players room)))).
  repeat split; auto.
Qed.

(** X11. An event leaves the game state of a room as it was, unless it is
    a gameStateUpdate for that room, which stores its payload, or a
    createRoom that draws the room's code, which puts a room without
    game state in its place. *)
Theorem gameState_frame (room room' : Room) :
  Map_wf (gameRooms s) ->
  Map_get rc (gameRooms s) = Some room ->
  Map_get rc (gameRooms (fst (step s c ev))) = Some room' ->
  gameState room' = gameState room \/
  (exists g, ev = gameStateUpdate rc g /\ gameState room' = Some g) \/
  (exists rnd nm, ev = createRoom rnd nm /\ generateRoomCode rnd = rc /\
                  gameState room' = None).
Proof.
  intros Hwf Hg Hg'.
  destruct (step_room_inv s c ev rc room' Hwf Hg')
    as [(rnd & nm & -> & <- & ->)|(room0 & Hg0 & H)].
  - right. right. exists rnd, nm. auto.
  - rewrite Hg in Hg0. injection Hg0 as <-.
    destruct H as [->|[(nm & _ & _ & ->)|[(Hev & Hf & H)|[(g & -> & ->)|(i & _ & _ & _ & ->)]]]];
      auto.
    + cbv zeta in H. destruct H as [(_ & _ & ->)|(_ & ->)]; auto.
    + right. left. exists g. auto.
Qed.

(** X12. Rooms come and go in one way each: a code that was not
    registered is registered after an event only when the event is a
    createRoom that draws it, and a registered room is registered no more
    only when the event is the disconnect of its one remaining player. *)
Theorem room_lifecycle :
  Map_wf (gameRooms s) ->
  (forall room', Map_get rc (gameRooms s) = None ->
     Map_get rc (gameRooms (fst (step s c ev))) = Some room' ->
     exists rnd nm, ev = createRoom rnd nm /\ generateRoomCode rnd = rc /\
                    room' = mkRoom rc [mkPlayer c nm false] None false) /\
  (forall room, Map_get rc (gameRooms s) = Some room ->
     Map_get rc (gameRooms (fst (step s c ev))) = None ->
     ev = disconnect /\ exists p, players room = [p] /\ id p = c).
Proof.
  intros Hwf. split.
  - intros room' Hn Hg'.
    destruct (step_room_inv s c ev rc room' Hwf Hg')
      as [H|(room0 & Hg0 & _)]; [exact H | congruence].
  - intros room. now apply step_room_deleted.
Qed.

End RoomLife.

Section StartedForGood.

Variable rc : string.

Lemma started_or_gone_step (s : Server) (c : SocketId) (ev : Event) :
  Map_wf (gameRooms s) ->
  (forall rnd nm, ev = createRoom rnd nm -> generateRoomCode rnd <> rc) ->
  (forall room, Map_get rc (gameRooms s) = Some room -> started room = true) ->
  forall room', Map_get rc (gameRooms (fst (step s c ev))) = Some room' ->
                started room' = true.
Proof.
  intros Hwf Hev Hq room' Hg'.
  destruct (step_room_inv s c ev rc room' Hwf Hg')
    as [(rnd & nm & E & Hrc & _)|(room & Hg & H)].
  - exfalso. exact (Hev rnd nm E Hrc).
  - specialize (Hq room Hg).
    destruct H as [->|[(nm & _ & _ & ->)|[(_ & _ & H)|[(g & _ & ->)|(i & _ & _ & _ & ->)]]]];
      auto.
    cbv zeta in H. destruct H as [(_ & _ & ->)|(_ & ->)]; auto.
Qed.

(** X10. Once a room has started it never takes a new player: after any
    further events, as long as no createRoom draws its code again, every
    joinRoom for the code is refused, with "Game already started" while
    the room is registered and with "Room not found" once it is gone,
    and the state stays as it is. *)
Theorem started_room_admits_nobody (s : Server)
    (evs : list (SocketId * Event)) (room : Room) (c : SocketId)
    (nm : string) :
  reachable s ->
  Map_get rc (gameRooms s) = Some room -> started room = true ->
  no_redraw rc evs ->
  let s' := fst (run s evs) in
  (forall room', Map_get rc (gameRooms s') = Some room' ->
     started room' = true /\
     step s' c (joinRoom rc nm) =
       (s', [(to_socket c, error "Game already started")])) /\
  (Map_get rc (gameRooms s') = None ->
     step s' c (joinRoom rc nm) =
       (s', [(to_socket c, error "Room not found")])).
Proof.
  intros Hreach Hg Hs Hno. cbv zeta.
  assert (Hq : forall room', Map_get rc (gameRooms (fst (run s evs))) = Some room' ->
                             started room' = true).
  { assert (Hq0 : forall r, Map_get rc (gameRooms s) = Some r -> started r = true)
      by (intros r Hr; congruence).
    clear Hg Hs room. revert s Hreach Hq0.
    induction evs as [|[c0 ev] evs' IH]; intros s Hreach Hq0; [exact Hq0|].
    simpl.
    assert (Hreach1 : reachable (fst (step s c0 ev))).
    { apply (reachable_run s [(c0, ev)]) in Hreach. simpl in Hreach.
      destruct (step s c0 ev). exact Hreach. }
    pose proof (started_or_gone_step s c0 ev (reachable_wf s Hreach)) as Hstep.
    destruct (step s c0 ev) as [s1 out1]. simpl in *.
    specialize (IH (fun c1 rnd nm1 Hin => Hno c1 rnd nm1 (or_intror Hin))
                   s1 Hreach1).
    destruct (run s1 evs') as [s2 out2]. simpl in *. apply IH.
    apply Hstep; [|exact Hq0].
    intros rnd nm1 ->. apply (Hno c0 rnd nm1). now left. }
  split.
  - intros room' Hg'. pose proof (Hq room' Hg') as Hs'.
    split; [exact Hs'|]. simpl. unfold on_joinRoom. now rewrite Hg', Hs'.
  - intros Hn. simpl. unfold on_joinRoom. now rewrite Hn.
Qed.

End StartedForGood.

(** ** Repeated messages *)

Section Repeats.

Variables (s : Server) (rc : string).

(** X13. The last gameStateUpdate wins: two updates of the same room in
    a row, from any two sockets, leave the server as the second one
    alone would. *)
Theorem gameStateUpdate_last_wins (c1 c2 : SocketId) (g1 g2 : payload) :
  fst (step (fst (step s c1 (gameStateUpdate rc g1))) c2
         (gameStateUpdate rc g2)) =
  fst (step s c2 (gameStateUpdate rc g2)).
Proof.
  simpl. unfold on_gameStateUpdate.
  destruct (Map_get rc (gameRooms s)) as [room|] eqn:Hg; simpl.
  - rewrite Map_get_set_same. simpl. now rewrite Map_set_set.
  - now rewrite Hg.
Qed.

(** X14. A playerReady sent again right away changes nothing and makes
    the server send the same messages once more, [gameStart] included if
    it had been sent. *)
Theorem playerReady_repeat (c : SocketId) :
  step (fst (step s c (playerReady rc))) c (playerReady rc) =
  (fst (step s c (playerReady rc)), snd (step s c (playerReady rc))).
Proof.
  change (step s c (playerReady rc)) with (on_playerReady s c rc).
  destruct (on_playerReady_cases s c rc)
    as [[E _]|(room & Hg & (p & Hp & Hid) & H)].
  - rewrite E. simpl. exact E.
  - cbv zeta in H.
    assert (Hf : find (has_id c) (players room) <> None).
    { intros Hf. rewrite find_has_id_None in Hf. exact (Hf p Hp Hid). }
    apply find_mark_ready in Hf.
    destruct H as [(H2 & Hall & E)|(Hn & E)]; rewrite E; cbn [fst snd];
      change (step ?st c (playerReady rc)) with (on_playerReady st c rc);
      unfold on_playerReady; cbn [gameRooms groups];
      rewrite Map_get_set_same; cbn [players set_players set_started];
      (destruct (find (has_id c) (mark_ready c (players room)));
         [|congruence]);
      rewrite mark_ready_idem, !Map_set_set.
    + apply Nat.leb_le in H2. rewrite <- forallb_forall in Hall.
      rewrite H2, Hall. reflexivity.
    + destruct ((2 <=? List.length (mark_ready c (players room)))
                && forallb ready (mark_ready c (players room))) eqn:Ec;
        [|reflexivity].
      exfalso. apply Hn. apply andb_true_iff in Ec. destruct Ec as [E1 E2].
      apply Nat.leb_le in E1. rewrite forallb_forall in E2. auto.
Qed.

End Repeats.

(** ** What is sent, and to whom *)

Section Sent.

Variables (s : Server) (c : SocketId) (ev : Event).

(** X15. An [error] is the server's whole answer to a joinRoom it
    refuses: when an event makes the server send [error], the event is a
    joinRoom, the message is one of the three refusals and goes to the
    caller, nothing else is sent and the state is unchanged. *)
Theorem error_means_refused (t : Target) (r : string) :
  In (t, error r) (snd (step s c ev)) ->
  exists rc nm, ev = joinRoom rc nm /\ t = to_socket c /\
    step s c ev = (s, [(to_socket c, error r)]) /\
    (r = "Room not found" \/ r = "Game already started" \/ r = "Room is full").
Proof.
  destruct ev as [rnd nm|rc nm|rc|rc g|rc a d|]; simpl.
  - intros [[=]|[]].
  - unfold on_joinRoom. destruct (Map_get rc (gameRooms s)) as [room|].
    + destruct (started room).
      * intros [[= <- <-]|[]]. exists rc, nm. repeat split; auto.
      * destruct (5 <=? List.length (players room)); simpl.
        -- intros [[= <- <-]|[]]. exists rc, nm. repeat split; auto.
        -- intros [[=]|[[=]|[]]].
    + intros [[= <- <-]|[]]. exists rc, nm. repeat split; auto.
  - unfold on_playerReady. destruct (Map_get rc (gameRooms s)) as [room|];
      [|intros []].
    destruct (find (has_id c) (players room)); [|intros []].
    match goal with |- context [if ?b then _ else _] => destruct b end;
      simpl; [intros [[=]|[[=]|[]]] | intros [[=]|[]]].
  - unfold on_gameStateUpdate. destruct (Map_get rc (gameRooms s));
      simpl; [intros [[=]|[]] | intros []].
  - intros [[=]|[]].
  - intros H. apply fold_disconnect_emissions in H.
    destruct H as [[]|(rc & _ & [[=]|(ps & [=])])].
Qed.

End Sent.

Section PlayerLists.

Lemma sweep_playersUpdate (c : SocketId) (m : RoomMap) (t : Target)
    (ps : list Player) :
  Map_wf m -> In (t, playersUpdate ps) (snd (sweep c m)) ->
  exists rc room', t = io_to rc /\
    Map_get rc (fst (sweep c m)) = Some room' /\ players room' = ps.
Proof.
  unfold Map_wf. induction m as [|[k v] m IH]; simpl; [tauto|].
  intros Hwf Hin. inversion Hwf as [|? ? Hk Hm]; subst.
  assert (Hrest : In (t, playersUpdate ps) (snd (sweep c m)) ->
            exists rc room', t = io_to rc /\
              Map_get rc (fst (sweep c m)) = Some room' /\
              players room' = ps /\ rc <> k).
  { intros H. destruct (IH Hm H) as (rc & room' & -> & Hg & Hp).
    exists rc, room'. repeat split; auto. intros ->. apply Hk.
    apply sweep_keys with (c := c). apply Map_get_keys. congruence. }
  destruct (findIndex c (players v)) as [i|].
  - destruct (List.length (splice1 i (players v)) =? 0); simpl in *.
    + destruct (Hrest Hin) as (rc & room' & -> & Hg & Hp & _). eauto.
    + destruct Hin as [[= <- <-]|[[=]|Hin]].
      * exists k. eexists. rewrite String.eqb_refl. simpl. auto.
      * destruct (Hrest Hin) as (rc & room' & -> & Hg & Hp & Hne).
        exists rc, room'. destruct (String.eqb_spec k rc); [congruence|]. auto.
  - simpl in *. destruct (Hrest Hin) as (rc & room' & -> & Hg & Hp & Hne).
    exists rc, room'. destruct (String.eqb_spec k rc); [congruence|]. auto.
Qed.

(** X16. Every player list the server sends is the current one: a
    [playersUpdate] or [gameStart] goes to the group of a registered
    room and carries the players of that room as the handler leaves
    them. *)
Theorem sent_list_is_current (s : Server) (c : SocketId) (ev : Event)
    (t : Target) (ps : list Player) :
  Map_wf (gameRooms s) ->
  In (t, playersUpdate ps) (snd (step s c ev)) \/
  In (t, gameStart ps) (snd (step s c ev)) ->
  exists rc room', t = io_to rc /\
    Map_get rc (gameRooms (fst (step s c ev))) = Some room' /\
    players room' = ps.
Proof.
  intros Hwf [H|H].
  2: { apply (proj1 (gameStart_emitted s c ev)) in H.
       destruct H as (rc & _ & room' & _ & -> & _ & _ & Hg & -> & _). eauto. }
  destruct ev as [rnd nm|rc nm|rc|rc g|rc a d|].
  - simpl in H. destruct H as [[=]|[]].
  - simpl in *. unfold on_joinRoom in *.
    destruct (Map_get rc (gameRooms s)) as [room|];
      [|destruct H as [[=]|[]]].
    destruct (started room); [destruct H as [[=]|[]]|].
    destruct (5 <=? List.length (players room));
      [destruct H as [[=]|[]]|].
    simpl in *. destruct H as [[=]|[[= <- <-]|[]]].
    exists rc. eexists. rewrite Map_get_set_same. simpl. auto.
  - change (step s c (playerReady rc)) with (on_playerReady s c rc) in *.
    destruct (on_playerReady_cases s c rc)
      as [[E _]|(room & _ & _ & [(_ & _ & E)|(_ & E)])];
      rewrite E in *; cbn [fst snd gameRooms] in *.
    + destruct H.
    + destruct H as [[= <- <-]|[[=]|[]]].
      exists rc. eexists. rewrite Map_get_set_same. simpl. auto.
    + destruct H as [[= <- <-]|[]].
      exists rc. eexists. rewrite Map_get_set_same. simpl. auto.
  - simpl in H. unfold on_gameStateUpdate in H.
    destruct (Map_get rc (gameRooms s)); simpl in H;
      [destruct H as [[=]|[]] | destruct H].
  - simpl in H. destruct H as [[=]|[]].
  - change (step s c disconnect)
      with (on_disconnect (mkServer (gameRooms s) (leaveAll c (groups s))) c)
      in *.
    rewrite on_disconnect_sweep in * by exact Hwf. cbn [fst snd gameRooms] in *.
    now apply sweep_playersUpdate.
Qed.

Lemma nth_error_mark_ready_other (c : SocketId) (ps : list Player) (j : nat)
    (q : Player) :
  nth_error ps j = Some q -> id q <> c ->
  nth_error (mark_ready c ps) j = Some q.
Proof.
  revert j. induction ps as [|x ps IH]; intros [|j]; simpl; try discriminate.
  - intros [= ->] Hne. apply has_id_false in Hne. now rewrite Hne.
  - intros H Hne. destruct (has_id c x); simpl; auto.
Qed.

(** An entry behind another entry of the same socket is out of reach of
    [find]. *)
Lemma nth_error_mark_ready_shadowed (c : SocketId) (ps : list Player)
    (i j : nat) (p q : Player) :
  i < j -> nth_error ps i = Some p -> nth_error ps j = Some q ->
  id q = id p -> nth_error (mark_ready c ps) j = Some q.
Proof.
  revert i j. induction ps as [|x ps IH]; intros i j Hij Hi Hj Hid.
  - destruct j; discriminate.
  - destruct j as [|j]; [lia|]. simpl in Hj. simpl.
    destruct (has_id c x) eqn:E; [exact Hj|]. simpl.
    destruct i as [|i].
    + injection Hi as ->. apply nth_error_mark_ready_other; [assumption|].
      apply has_id_false in E. congruence.
    + simpl in Hi. apply (IH i j); auto. lia.
Qed.

(** X17. A room in which a socket has a second entry that is not ready
    does not start: a playerReady marks the first entry of its caller
    only, so whoever sends it and for whichever room, the second entry
    stays as it is, the first stays in front of it, and no [gameStart]
    goes to the room. *)
Theorem second_entry_blocks_start (s : Server) (rc : string) (room : Room)
    (i j : nat) (p q : Player) (c : SocketId) (rc0 : string) :
  Map_get rc (gameRooms s) = Some room ->
  i < j -> nth_error (players room) i = Some p ->
  nth_error (players room) j = Some q ->
  id q = id p -> ready q = false ->
  (exists room' p', Map_get rc (gameRooms (fst (step s c (playerReady rc0))))
                      = Some room' /\
     nth_error (players room') i = Some p' /\ id p' = id p /\
     nth_error (players room') j = Some q) /\
  (forall ps, ~ In (io_to rc, gameStart ps) (snd (step s c (playerReady rc0)))).
Proof.
  intros Hg Hij Hi Hj Hid Hr.
  assert (Hkeep : exists room' p',
            Map_get rc (gameRooms (fst (step s c (playerReady rc0)))) = Some room' /\
            nth_error (players room') i = Some p' /\ id p' = id p /\
            nth_error (players room') j = Some q).
  { assert (Hsame : exists room' p', Map_get rc (gameRooms s) = Some room' /\
              nth_error (players room') i = Some p' /\ id p' = id p /\
              nth_error (players room') j = Some q) by eauto 6.
    change (step s c (playerReady rc0)) with (on_playerReady s c rc0).
    destruct (on_playerReady_cases s c rc0)
      as [[-> _]|(room0 & Hg0 & _ & [(_ & _ & ->)|(_ & ->)])];
      [exact Hsame | |]; cbn [fst gameRooms]; rewrite Map_get_set_cases;
      (destruct (String.eqb_spec rc0 rc) as [->|Hne]; [|exact Hsame]);
      rewrite Hg in Hg0; injection Hg0 as <-;
      destruct (nth_error_mark_ready c _ _ _ Hi) as (p' & Hp' & Hidp & _);
      pose proof (nth_error_mark_ready_shadowed c _ _ _ _ _ Hij Hi Hj Hid);
      eexists; exists p'; simpl; eauto. }
  split; [exact Hkeep|].
  intros ps Hin.
  apply (proj1 (gameStart_emitted s c (playerReady rc0))) in Hin.
  destruct Hin as (rc1 & _ & room1 & _ & [= <-] & _ & _ & Hg1 & _ & _ & Hall).
  destruct Hkeep as (room' & _ & Hg' & _ & _ & Hq).
  rewrite Hg1 in Hg'. injection Hg' as <-.
  apply nth_error_In in Hq. rewrite (Hall q Hq) in Hr. discriminate.
Qed.

End PlayerLists.

(** ** After a disconnect *)

Section Departed.

Variable c : SocketId.

Lemma step_targets (s : Server) (c' : SocketId) (ev : Event) (t : Target)
    (m : Message) :
  In (t, m) (snd (step s c' ev)) ->
  t = to_socket c' \/ (exists rc, t = io_to rc) \/
  (exists rc, t = socket_to c' rc).
Proof.
  destruct ev as [rnd nm|rc nm|rc|rc g|rc a d|]; simpl.
  - intros [[= <- <-]|[]]. auto.
  - unfold on_joinRoom. destruct (Map_get rc (gameRooms s)) as [room|].
    + destruct (started room); [intros [[= <- <-]|[]]; auto|].
      destruct (5 <=? List.length (players room)); simpl.
      * intros [[= <- <-]|[]]. auto.
      * intros [[= <- <-]|[[= <- <-]|[]]]; eauto.
    + intros [[= <- <-]|[]]. auto.
  - unfold on_playerReady. destruct (Map_get rc (gameRooms s)) as [room|];
      [|intros []].
    destruct (find (has_id c') (players room)); [|intros []].
    match goal with |- context [if ?b then _ else _] => destruct b end;
      simpl; [intros [[= <- <-]|[[= <- <-]|[]]] | intros [[= <- <-]|[]]];
      eauto.
  - unfold on_gameStateUpdate. destruct (Map_get rc (gameRooms s));
      simpl; [intros [[= <- <-]|[]] | intros []]. eauto.
  - intros [[= <- <-]|[]]. eauto.
  - intros H. apply fold_disconnect_emissions in H.
    destruct H as [[]|(rc & -> & _)]. eauto.
Qed.

Lemma step_groups (s : Server) (c' : SocketId) (ev : Event) :
  groups (fst (step s c' ev)) = groups s \/
  (exists rc, groups (fst (step s c' ev)) = join rc c' (groups s)) \/
  groups (fst (step s c' ev)) = leaveAll c' (groups s).
Proof.
  destruct ev as [rnd nm|rc nm|rc|rc g|rc a d|]; simpl; eauto.
  - unfold on_joinRoom. destruct (Map_get rc (gameRooms s)) as [room|]; auto.
    destruct (started room); auto.
    destruct (5 <=? List.length (players room)); simpl; eauto.
  - unfold on_playerReady. destruct (Map_get rc (gameRooms s)) as [room|]; auto.
    destruct (find (has_id c') (players room)); auto.
    match goal with |- context [if ?b then _ else _] => destruct b end; auto.
  - unfold on_gameStateUpdate. destruct (Map_get rc (gameRooms s)); auto.
Qed.

Lemma step_ungrouped (s : Server) (c' : SocketId) (ev : Event) :
  c' <> c -> ungrouped c (groups s) ->
  ungrouped c (groups (fst (step s c' ev))) /\
  Forall (fun d => fst d <> c)
    (deliveries (groups (fst (step s c' ev))) (snd (step s c' ev))).
Proof.
  intros Hne Hu.
  assert (Hu' : ungrouped c (groups (fst (step s c' ev)))).
  { destruct (step_groups s c' ev) as [->|[(rc & ->)| ->]]; auto.
    - intros rc0 H. apply members_join in H. destruct H as [H|[_ H]].
      + exact (Hu rc0 H).
      + congruence.
    - intros rc0 H. apply members_leaveAll in H. exact (Hu rc0 (proj1 H)). }
  split; [exact Hu'|].
  apply Forall_forall. intros [c0 m] Hd. simpl. intros ->.
  apply In_deliveries in Hd. destruct Hd as (t & Hin & Hrec).
  destruct (step_targets s c' ev t m Hin) as [->|[(rc & ->)|(rc & ->)]].
  - simpl in Hrec. destruct Hrec as [E|[]]. congruence.
  - exact (Hu' rc Hrec).
  - apply recipients_socket_to in Hrec. exact (Hu' rc (proj1 Hrec)).
Qed.

(** X18. A socket that has disconnected is sent nothing any more:
    neither the messages of its own disconnect nor those of any later
    event of the other sockets reach it. *)
Theorem departed_socket_hears_nothing (s : Server)
    (evs : list (SocketId * Event)) :
  Forall (fun e => fst e <> c) evs ->
  Forall (fun d => fst d <> c) (run_deliveries s ((c, disconnect) :: evs)).
Proof.
  intros Hevs.
  assert (Hrun : forall s0, ungrouped c (groups s0) ->
            Forall (fun d => fst d <> c) (run_deliveries s0 evs)).
  { induction Hevs as [|[c' ev] evs' Hc' _ IH]; intros s0 Hu; simpl.
    - constructor.
    - destruct (step_ungrouped s0 c' ev Hc' Hu) as [Hu' Hd].
      apply Forall_app. split; [exact Hd | now apply IH]. }
  assert (Hu : ungrouped c (groups (fst (step s c disconnect)))).
  { intros rc H. simpl in H. apply members_leaveAll in H. tauto. }
  cbn [run_deliveries]. apply Forall_app. split; [|now apply Hrun].
  apply Forall_forall. intros [c0 m] Hd. simpl. intros ->.
  apply In_deliveries in Hd. destruct Hd as (t & Hin & Hrec).
  destruct (step_targets s c disconnect t m Hin) as [->|[(rc & ->)|(rc & ->)]].
  - simpl in Hin. apply fold_disconnect_emissions in Hin.
    destruct Hin as [[]|(rc & [=] & _)].
  - exact (Hu rc Hrec).
  - apply recipients_socket_to in Hrec. exact (Hu rc (proj1 Hrec)).
Qed.

End Departed.

(** ** The other players *)

Section Others.

Lemma In_mark_ready_other (c : SocketId) (ps : list Player) (q : Player) :
  In q ps -> id q <> c -> In q (mark_ready c ps).
Proof.
  intros Hin Hne. apply In_nth_error in Hin. destruct Hin as [j Hj].
  apply nth_error_In with (n := j).
  now apply nth_error_mark_ready_other.
Qed.

Lemma In_splice1_other (c : SocketId) (ps : list Player) (i : nat)
    (q : Player) :
  findIndex c ps = Some i -> In q ps -> id q <> c -> In q (splice1 i ps).
Proof.
  intros Hf Hin Hne.
  destruct (findIndex_Some c ps i Hf) as (l1 & p & l2 & -> & Hid & _ & _ & ->).
  apply in_app_or in Hin. apply in_or_app.
  destruct Hin as [H|[<-|H]]; auto. congruence.
Qed.

(** X19. No event of one socket removes or alters the entry of another
    socket's player: the entry is still in the room afterwards, as it
    was.  The one exception is a createRoom that draws the room's code,
    which replaces the room. *)
Theorem others_untouched (s : Server) (c : SocketId) (ev : Event)
    (rc : string) (room : Room) (q : Player) :
  Map_wf (gameRooms s) ->
  Map_get rc (gameRooms s) = Some room -> In q (players room) ->
  id q <> c ->
  (forall rnd nm, ev = createRoom rnd nm -> generateRoomCode rnd <> rc) ->
  exists room', Map_get rc (gameRooms (fst (step s c ev))) = Some room' /\
                In q (players room').
Proof.
  intros Hwf Hg Hq Hne Hev.
  destruct (Map_get rc (gameRooms (fst (step s c ev)))) as [room'|] eqn:Hg'.
  2: { destruct (step_room_deleted s c ev rc room Hwf Hg Hg')
         as (_ & p & Hp & Hid).
       rewrite Hp in Hq. destruct Hq as [<-|[]]. congruence. }
  exists room'. split; [reflexivity|].
  destruct (step_room_inv s c ev rc room' Hwf Hg')
    as [(rnd & nm & E & Hrc & _)|(room0 & Hg0 & H)].
  - exfalso. exact (Hev rnd nm E Hrc).
  - rewrite Hg in Hg0. injection Hg0 as <-.
    destruct H as [->|[(nm & _ & _ & ->)|[(_ & _ & H)|[(g & _ & ->)|(i & _ & Hf & _ & ->)]]]];
      simpl; auto.
    + apply in_or_app. now left.
    + cbv zeta in H. destruct H as [(_ & _ & ->)|(_ & ->)]; simpl;
        now apply In_mark_ready_other.
    + now apply (In_splice1_other c).
Qed.

End Others.

(** ** The further properties on the sample runs *)

Section MoreSamples.

Import Sample.

Local Ltac by_run := vm_compute; reflexivity.

Local Ltac sample_wf :=
  vm_compute; repeat constructor; simpl; intuition discriminate.

(** X3 on Bob drawing the code of Alice's room. *)
Lemma createRoom_collision_witness :
  Map_get code1
    (gameRooms (fst (step (after [("A", createRoom rnd1 "Alice")]) "B"
                       (createRoom rnd1 "Bob")))) =
    Some (mkRoom code1 [bob false] None false) /\
  step (fst (step (after [("A", createRoom rnd1 "Alice")]) "B"
               (createRoom rnd1 "Bob"))) "A" (playerReady code1) =
    (fst (step (after [("A", createRoom rnd1 "Alice")]) "B"
            (createRoom rnd1 "Bob")), []) /\
  In "A" (members code1
            (groups (fst (step (after [("A", createRoom rnd1 "Alice")]) "B"
                            (createRoom rnd1 "Bob"))))).
Proof.
  apply (createRoom_collision (after [("A", createRoom rnd1 "Alice")]) "B"
           rnd1 "Bob" (mkRoom code1 [alice false] None false) (alice false)).
  - by_run.
  - now left.
  - discriminate.
  - vm_compute. now left.
Defined.


(** X6, X7 and X8 on Alice's room: in the lobby, and once started. *)
Lemma room_never_empty_witness :
  Map_get code1 (gameRooms (after tr_lobby)) =
    Some (mkRoom code1 [alice false; bob false] None false) /\
  players (mkRoom code1 [alice false; bob false] None false) <> [].
Proof.
  split; [by_run|].
  apply (room_never_empty (after tr_lobby) code1);
    [exists tr_lobby; reflexivity | by_run].
Defined.

Lemma room_code_is_key_witness :
  Map_get code1 (gameRooms (after tr_lobby)) =
    Some (mkRoom code1 [alice false; bob false] None false) /\
  code (mkRoom code1 [alice false; bob false] None false) = code1.
Proof.
  split; [by_run|].
  apply (room_code_is_key (after tr_lobby) code1);
    [exists tr_lobby; reflexivity | by_run].
Defined.

Lemma started_room_all_ready_witness :
  Map_get code1 (gameRooms (after tr_started)) =
    Some (mkRoom code1 [alice true; bob true] None true) /\
  ready (bob true) = true.
Proof.
  split; [by_run|].
  apply (started_room_all_ready (after tr_started) code1
           (mkRoom code1 [alice true; bob true] None true));
    [exists tr_started; reflexivity | by_run | reflexivity
    | right; left; reflexivity].
Defined.

(** X9 on Bob's playerReady, which starts the room. *)
Lemma started_only_by_ready_witness :
  playerReady code1 = playerReady code1 /\
  (exists p, In p [alice true; bob false] /\ id p = "B") /\
  2 <= List.length [alice true; bob true] /\
  (forall q, In q [alice true; bob true] -> ready q = true) /\
  In (io_to code1, gameStart [alice true; bob true])
     (snd (step (after (tr_lobby ++ [("A", playerReady code1)])) "B"
             (playerReady code1))).
Proof.
  apply (started_only_by_ready
           (after (tr_lobby ++ [("A", playerReady code1)])) "B"
           (playerReady code1) code1
           (mkRoom code1 [alice true; bob false] None false)
           (mkRoom code1 [alice true; bob true] None true));
    [sample_wf | by_run | reflexivity | by_run | reflexivity].
Defined.

(** X10 on the started room after Alice has left, and after Bob has
    left too: Dave is refused, first for the start, then for want of a
    room. *)
Lemma started_room_admits_nobody_witness :
  step (fst (run (after tr_started) [("A", disconnect)])) "D"
       (joinRoom code1 "Dave") =
    (fst (run (after tr_started) [("A", disconnect)]),
     [(to_socket "D", error "Game already started")]) /\
  step (fst (run (after tr_started) [("A", disconnect); ("B", disconnect)]))
       "D" (joinRoom code1 "Dave") =
    (fst (run (after tr_started) [("A", disconnect); ("B", disconnect)]),
     [(to_socket "D", error "Room not found")]).
Proof.
  split.
  - apply (proj1 (started_room_admits_nobody code1 (after tr_started)
                    [("A", disconnect)]
                    (mkRoom code1 [alice true; bob true] None true) "D" "Dave"
                    (ex_intro _ tr_started eq_refl) eq_refl eq_refl
                    ltac:(intros c rnd nm [H|[]]; discriminate))
             (mkRoom code1 [bob true] None true)).
    by_run.
  - apply (proj2 (started_room_admits_nobody code1 (after tr_started)
                    [("A", disconnect); ("B", disconnect)]
                    (mkRoom code1 [alice true; bob true] None true) "D" "Dave"
                    (ex_intro _ tr_started eq_refl) eq_refl eq_refl
                    ltac:(intros c rnd nm [H|[H|[]]]; discriminate))).
    by_run.
Defined.

(** X11 on a playerReady, which leaves the game state alone. *)
Lemma gameState_frame_witness :
  gameState (mkRoom code1 [alice false; bob true] None false) =
    gameState (mkRoom code1 [alice false; bob false] None false) \/
  (exists g, playerReady code1 = gameStateUpdate code1 g /\
     gameState (mkRoom code1 [alice false; bob true] None false) = Some g) \/
  (exists rnd nm, playerReady code1 = createRoom rnd nm /\
     generateRoomCode rnd = code1 /\
     gameState (mkRoom code1 [alice false; bob true] None false) = None).
Proof.
  apply (gameState_frame (after tr_lobby) "B" (playerReady code1) code1);
    [sample_wf | by_run | by_run].
Defined.

(** X12 on Alice leaving the room she is alone in. *)
Lemma room_lifecycle_witness :
  disconnect = disconnect /\
  exists p, players (mkRoom code1 [alice false] None false) = [p] /\
            id p = "A".
Proof.
  apply (proj2 (room_lifecycle (after [("A", createRoom rnd1 "Alice")]) "A"
                  disconnect code1 ltac:(sample_wf)));
    by_run.
Defined.

(** X15 on a joinRoom for a code nobody has. *)
Lemma error_means_refused_witness :
  exists rc nm, joinRoom "NOROOM" "Bob" = joinRoom rc nm /\
    to_socket "B" = to_socket "B" /\
    step init "B" (joinRoom "NOROOM" "Bob") =
      (init, [(to_socket "B", error "Room not found")]) /\
    ("Room not found" = "Room not found" \/
     "Room not found" = "Game already started" \/
     "Room not found" = "Room is full").
Proof.
  apply (error_means_refused init "B" (joinRoom "NOROOM" "Bob")
           (to_socket "B") "Room not found").
  now left.
Defined.

(** X16 on the [playersUpdate] that follows Bob's disconnect. *)
Lemma sent_list_is_current_witness :
  exists rc room', io_to code1 = io_to rc /\
    Map_get rc (gameRooms (fst (step (after tr_two_rooms) "B" disconnect))) =
      Some room' /\
    players room' = [alice false].
Proof.
  apply (sent_list_is_current (after tr_two_rooms) "B" disconnect
           (io_to code1) [alice false]); [sample_wf|].
  left. vm_compute. now left.
Defined.

(** X17 on Alice, who has joined her own room: nobody's playerReady
    starts it. *)
Lemma second_entry_blocks_start_witness :
  (exists room' p',
     Map_get code1
       (gameRooms (fst (step (after [("A", createRoom rnd1 "Alice");
                                     ("A", joinRoom code1 "Alice")]) "A"
                          (playerReady code1)))) = Some room' /\
     nth_error (players room') 0 = Some p' /\ id p' = id (alice false) /\
     nth_error (players room') 1 = Some (alice false)) /\
  (forall ps,
     ~ In (io_to code1, gameStart ps)
          (snd (step (after [("A", createRoom rnd1 "Alice");
                             ("A", joinRoom code1 "Alice")]) "A"
                  (playerReady code1)))).
Proof.
  apply (second_entry_blocks_start
           (after [("A", createRoom rnd1 "Alice");
                   ("A", joinRoom code1 "Alice")]) code1
           (mkRoom code1 [alice false; alice false] None false) 0 1
           (alice false) (alice false) "A" code1);
    [by_run | lia | reflexivity | reflexivity | reflexivity | reflexivity].
Defined.

(** X18 on Bob, who leaves the lobby before Alice goes on. *)
Lemma departed_socket_hears_nothing_witness :
  Forall (fun d => fst d <> "B")
    (run_deliveries (after tr_lobby)
       [("B", disconnect); ("A", playerReady code1);
        ("A", playerAction code1 "play" "cards")]).
Proof.
  apply (departed_socket_hears_nothing "B" (after tr_lobby)
           [("A", playerReady code1); ("A", playerAction code1 "play" "cards")]).
  repeat constructor; discriminate.
Defined.

(** X19 on Bob's disconnect, which leaves Alice's entry alone. *)
Lemma others_untouched_witness :
  exists room',
    Map_get code1 (gameRooms (fst (step (after tr_lobby) "B" disconnect))) =
      Some room' /\
    In (alice false) (players room').
Proof.
  apply (others_untouched (after tr_lobby) "B" disconnect code1
           (mkRoom code1 [alice false; bob false] None false) (alice false));
    [sample_wf | by_run | now left | discriminate | discriminate].
Defined.

End MoreSamples.
